(** * gonetmon: the traffic watchdog (params.go)

    A shallow embedding of the rate-alerting engine of gonetmon: the
    time-windowed hit cache ([hitCache]), its eviction ([Watchdog.evict]),
    the alert/recovery check ([Watchdog.verify]), the message builder
    ([buildAlertMsg]) and the command loop started by [NewWatchdog]; and of
    the capture side (collector.go): the choice of the interfaces
    ([findDevices]), the opening and closing of the handles
    ([InitialiseCapture], [closeDevices]), the packet helpers and the
    sequential part of [capturePackets] and [Collector].

    Conventions of the embedding.
    - [time.Time] is an instant on one time line, counted in nanoseconds
      from the zero value [time.Time{}]; [time.Duration] is a signed 64-bit
      count of nanoseconds and [Time.Sub] saturates at its two ends.
    - Go's [uint] is taken 64 bits wide and its arithmetic wraps around.
    - The goroutine's [select] is driven by a list of events; each event
      comes with the reading [time.Now()] returns while it is served.
    - A send on [alertChan], a log line and [ticker.Stop()] are recorded in
      an effect trace, in program order.  A send is recorded when the code
      makes it; whether the receiver is ready to take it is outside the
      model. *)

From Stdlib Require Import ZArith List Bool Lia String Ascii Sorted.
From Stdlib Require Import DecimalString Permutation.
Import ListNotations.
Open Scope Z_scope.

(** ** Go scalars *)

Module GoInt.

Definition uintBits : Z := 64.
Definition uintModulus : Z := 2 ^ uintBits.
Definition maxUint : Z := uintModulus - 1.
Definition maxInt : Z := 2 ^ (uintBits - 1) - 1.

(** Arithmetic on [uint] is modulo [2^64]. *)
Definition wrapUint (z : Z) : Z := z mod uintModulus.

(** The conversion [int(u)] of a [uint]: the same 64 bits, read signed. *)
Definition toInt (u : Z) : Z :=
  if u <=? maxInt then u else u - uintModulus.

End GoInt.

Module GoTime.

(** Nanoseconds since the zero instant. *)
Definition Time : Type := Z.
Definition Duration : Type := Z.

Definition minDuration : Duration := - 2 ^ 63.
Definition maxDuration : Duration := 2 ^ 63 - 1.

(** [time.Time{}] *)
Definition zeroTime : Time := 0.

(** [t.Sub(u)]: the duration [t - u]; when it does not fit a [Duration]
    the nearest end of the range is returned. *)
Definition Sub (t u : Time) : Duration :=
  Z.max minDuration (Z.min maxDuration (t - u)).

End GoTime.

Export GoInt GoTime.

(** ** Data model *)

(** The struct [hitCache].  The field [list] of the source is [list_] here;
    the channel [push] is the source of the [CachePush] events below. *)
Record hitCache : Type := mkHitCache {
  bufSize : Z;
  list_ : list Time;
  size : Z
}.

(** The struct [Watchdog].  [alertChan] is the effect trace; [syn] delivers
    the [SyncChan] event. *)
Record Watchdog : Type := mkWatchdog {
  cache : hitCache;
  timeFrame : Duration;
  tick : Duration;
  threshold : Z;
  alert : bool
}.

(** The struct [alertMsg], as [buildAlertMsg] fills it. *)
Record alertMsg : Type := mkAlertMsg {
  recovery : bool;
  body : string;
  timestamp : Time
}.

(** The fields of [Parameters] that [NewWatchdog] reads. *)
Record Parameters : Type := mkParameters {
  WatchdogBufSize : Z;
  AlertSpan : Duration;
  WatchdogTick : Duration;
  AlertThreshold : Z
}.

(** An operand of [fmt.Sprintf]. *)
Inductive FmtArg : Type :=
| ArgInt (n : Z)
| ArgString (s : string).

(** What the goroutine does to the outside. *)
Inductive Effect : Type :=
| SendAlert (m : alertMsg)
| LogInfo (s : string)
| TickerStop
| WgDone.

(** What the [select] of the command loop can receive. *)
Inductive Event : Type :=
| SyncChan
| TickerC (t : Time)
| CachePush (p : Time).

(** [l.Len()] of [container/list]. *)
Definition Len (l : list Time) : Z := Z.of_nat (List.length l).

Definition setAlertField (b : bool) (w : Watchdog) : Watchdog :=
  mkWatchdog (cache w) (timeFrame w) (tick w) (threshold w) b.

Definition setCacheField (c : hitCache) (w : Watchdog) : Watchdog :=
  mkWatchdog c (timeFrame w) (tick w) (threshold w) (alert w).

Definition setListSize (l : list Time) (s : Z) (c : hitCache) : hitCache :=
  mkHitCache (bufSize c) l s.

(** ** The monad of the goroutine: state [Watchdog], output [Effect] *)

Definition Act (A : Type) : Type := Watchdog -> A * Watchdog * list Effect.

Definition ret {A : Type} (a : A) : Act A := fun w => (a, w, []).

Definition bind {A B : Type} (c : Act A) (k : A -> Act B) : Act B :=
  fun w =>
    let '(a, w1, out1) := c w in
    let '(b, w2, out2) := k a w1 in
    (b, w2, out1 ++ out2).

Definition get : Act Watchdog := fun w => (w, w, []).

Definition modify (f : Watchdog -> Watchdog) : Act unit := fun w => (tt, f w, []).

Definition emit (e : Effect) : Act unit := fun w => (tt, w, [e]).

Definition when (b : bool) (c : Act unit) : Act unit := if b then c else ret tt.

Declare Scope act_scope.
Delimit Scope act_scope with act.
Notation "x <- c ;; k" := (bind c (fun x => k))
  (at level 61, c at next level, right associativity) : act_scope.
Notation "c ;; k" := (bind c (fun _ => k))
  (at level 61, right associativity) : act_scope.
Open Scope act_scope.

Definition stateOf {A : Type} (r : A * Watchdog * list Effect) : Watchdog := snd (fst r).
Definition effectsOf {A : Type} (r : A * Watchdog * list Effect) : list Effect := snd r.
Definition valueOf {A : Type} (r : A * Watchdog * list Effect) : A := fst (fst r).

(** The messages sent on [alertChan] in a trace. *)
Fixpoint alertsOf (out : list Effect) : list alertMsg :=
  match out with
  | [] => []
  | SendAlert m :: rest => m :: alertsOf rest
  | _ :: rest => alertsOf rest
  end.

(** ** Instances of the formatting functions, to run the model *)

Definition decimal (z : Z) : string := NilZero.string_of_int (Z.to_int z).

Definition renderArg (a : FmtArg) : string :=
  match a with
  | ArgInt n => decimal n
  | ArgString s => s
  end.

Definition isVerb (v : ascii) : bool :=
  ((v =? "d") || (v =? "s") || (v =? "v"))%char.

(** The verbs [%d], [%s] and [%v] of [fmt.Sprintf], each taking the next
    operand; every other character is copied.  This is [fmt.Sprintf] on
    formats whose percent signs all start one of these verbs, with as many
    operands as verbs, an integer for each [%d] and a string for each
    [%s]. *)
Fixpoint sprintfVerbs (format : string) (args : list FmtArg) : string :=
  match format with
  | EmptyString => EmptyString
  | String c tl =>
      match (c =? "%")%char, tl, args with
      | true, String v rest, a :: args' =>
          if isVerb v then (renderArg a ++ sprintfVerbs rest args')%string
          else String c (sprintfVerbs tl args)
      | _, _, _ => String c (sprintfVerbs tl args)
      end
  end.

(** A text without a percent sign. *)
Fixpoint plainText (s : string) : bool :=
  match s with
  | EmptyString => true
  | String c tl => negb (c =? "%")%char && plainText tl
  end.

(** A time layout that prints the nanosecond count. *)
Definition formatNanos (t : Time) (layout : string) : string :=
  (decimal t ++ "ns")%string.

(** Formats of the kind the three constants hold. *)
Definition demoAlertFormat : string :=
  "High traffic generated an alert - hits = %d, triggered at %s".
Definition demoRecoveryFormat : string :=
  "Recovered from high traffic at %s".
Definition demoTimeLayout : string :=
  "2006-01-02 15:04:05".

(** ** Capture (collector.go) *)

(** An [error], by its message. *)
Definition GoError : Type := string.

(** A value with a runtime panic as the other outcome. *)
Inductive Outcome (A : Type) : Type :=
| Panics
| Returns (a : A).
Arguments Panics {A}.
Arguments Returns {A} a.

(** [net.Interface], the fields the collector reads. *)
Record Interface : Type := mkInterface {
  Name : string;
  Flags : Z
}.

(** [net.FlagUp] *)
Definition FlagUp : Z := 1.

(** A line handed to logrus: level, fields and the operands of the call. *)
Inductive LogLevel : Type := ErrorLevel | InfoLevel.

Inductive LogArg : Type :=
| LogText (s : string)
| LogTexts (l : list string).

(** One entry of [log.Fields]. *)
Definition logField (key value : string) : string * string := (key, value).

Record LogEntry : Type := mkLogEntry {
  logLevel : LogLevel;
  logFields : list (string * string);
  logArgs : list LogArg
}.

(** [l[i] = x] on the array behind a slice. *)
Fixpoint setAt {A : Type} (i : nat) (x : A) (l : list A) : list A :=
  match l, i with
  | [], _ => []
  | _ :: tl, O => x :: tl
  | y :: tl, S i' => y :: setAt i' x tl
  end.

(** The slice [devices] is the first [n] cells of the array [arr].
    [devices[index] = devices[len(devices)-1]] followed by
    [devices = devices[:len(devices)-1]]; an index outside the slice
    panics. *)
Definition swapRemove (index : nat) (arr : list Interface) (n : nat)
  : Outcome (list Interface * nat) :=
  match nth_error (firstn n arr) (n - 1), (index <? n)%nat with
  | Some last, true => Returns (setAt index last arr, (n - 1)%nat)
  | _, _ => Panics
  end.

(** The purge of [findDevices]:
    [for index, d := range devices { if d.Flags&(net.FlagUp) == 0 {...} }].
    The range is over the slice as it was when the loop began, [count]
    cells from [index] on; [d] is read from the array, which the body
    writes, and [n] is the length of [devices] as the body has left it. *)
Fixpoint purgeLoop (count index : nat) (arr : list Interface) (n : nat)
  : Outcome (list Interface * nat) :=
  match count with
  | O => Returns (arr, n)
  | S count' =>
      match nth_error arr index with
      | None => Panics
      | Some d =>
          if Z.land (Flags d) FlagUp =? 0 then
            match swapRemove index arr n with
            | Returns (arr', n') => purgeLoop count' (S index) arr' n'
            | Panics => Panics
            end
          else purgeLoop count' (S index) arr n
      end
  end.

(** The inner range of the tailoring: the first device of the slice, with
    its index, whose name is [i]. *)
Fixpoint searchName (i : string) (index : nat) (devices : list Interface)
  : option (nat * Interface) :=
  match devices with
  | [] => None
  | d :: rest =>
      if String.eqb (Name d) i then Some (index, d)
      else searchName i (S index) rest
  end.

(** [interfacesLoop] *)
Fixpoint tailorLoop (interfaces : list string) (arr : list Interface) (n : nat)
  (tailoredList : list Interface) (logs : list LogEntry)
  : Outcome (list Interface * list LogEntry) :=
  match interfaces with
  | [] => Returns (tailoredList, logs)
  | i :: rest =>
      match searchName i 0 (firstn n arr) with
      | Some (index, d) =>
          match swapRemove index arr n with
          | Returns (arr', n') =>
              tailorLoop rest arr' n' (tailoredList ++ [d])
                (logs ++ [mkLogEntry InfoLevel []
                            [LogText "Found requested interface "; LogText i]])
          | Panics => Panics
          end
      | None =>
          tailorLoop rest arr n tailoredList
            (logs ++ [mkLogEntry ErrorLevel []
                        [LogText "Could not find requested interface among activated interfaces : ";
                         LogText i]])
      end
  end.

(** [func findDevices(interfaces []string) []net.Interface]; [sys] is what
    [net.Interfaces()] returns, [None] for [interfaces] and for the result
    is the [nil] slice. *)
Definition findDevices (sys : list Interface + GoError) (interfaces : option (list string))
  : Outcome (option (list Interface) * list LogEntry) :=
  match sys with
  | inr err =>
      Returns (None,
               [mkLogEntry ErrorLevel [logField "error" err]
                  [LogText "Error in finding network devices."]])
  | inl devices =>
      if (List.length devices =? 0)%nat then
        Returns (None,
                 [mkLogEntry ErrorLevel []
                    [LogText "Could not find any network devices (but no error occurred)."]])
      else
        match purgeLoop (List.length devices) 0 devices (List.length devices) with
        | Panics => Panics
        | Returns (arr, n) =>
            match interfaces with
            | None => Returns (Some (firstn n arr), [])
            | Some names =>
                match tailorLoop names arr n [] [] with
                | Panics => Panics
                | Returns (tailoredList, logs) =>
                    if (List.length tailoredList =? 0)%nat then
                      Returns (None,
                               logs ++
                               [mkLogEntry ErrorLevel []
                                  [LogText "Could not find any requested network devices among : ";
                                   LogTexts names]])
                    else Returns (Some tailoredList, logs)
                end
            end
        end
  end.

(** [snapshotLen], [promiscuous] and [timeout] ([defDisplayRefresh]). *)
Definition snapshotLen : Z := 1024.
Definition promiscuous : bool := false.
Definition timeout : Z := 10.

(** The filter of the parameters: what [Collector] and [capturePackets]
    read of it. *)
Record Filter : Type := mkFilter {
  Network : string;
  Application : string;
  Type_ : string
}.

(** A packet: the payload of its application layer and the two endpoints
    of its network flow, each absent when the packet has no such layer. *)
Record Packet : Type := mkPacket {
  applicationPayload : option string;
  networkEndpoints : option (string * string)
}.

(** [strings.Contains] *)
Fixpoint Contains (s substr : string) : bool :=
  String.prefix substr s ||
  match s with
  | EmptyString => false
  | String _ tl => Contains tl substr
  end.

(** [strings.Compare] *)
Definition Compare (a b : string) : Z :=
  match String.compare a b with
  | Eq => 0
  | Lt => -1
  | Gt => 1
  end.

(** [strings.IndexByte] *)
Fixpoint IndexByte (s : string) (c : ascii) : Z :=
  match s with
  | EmptyString => -1
  | String a tl =>
      if (a =? c)%char then 0
      else if IndexByte tl c <? 0 then -1 else IndexByte tl c + 1
  end.

(** [s[:k]]; bounds outside the string panic. *)
Definition sliceTo (s : string) (k : Z) : Outcome string :=
  if (k <? 0) || (Z.of_nat (String.length s) <? k) then Panics
  else Returns (String.substring 0 (Z.to_nat k) s).

(** [func sniffApplicationLayer(packet gopacket.Packet, filter string) bool] *)
Definition sniffApplicationLayer (packet : Packet) (filter : string) : bool :=
  match applicationPayload packet with
  | None => false
  | Some payload => if Contains payload filter then true else false
  end.

(** [func getRemoteIP(packet gopacket.Packet, deviceIP string) string]; a
    packet without a network layer panics. *)
Definition getRemoteIP (packet : Packet) (deviceIP : string) : Outcome string :=
  match networkEndpoints packet with
  | None => Panics
  | Some (src, dst) =>
      if Compare deviceIP src =? 0 then Returns dst else Returns src
  end.

(** [func getDeviceIP(device *net.Interface) (string, error)]; [addrs] is
    what [device.Addrs()] returns, each address by its [String()]. *)
Definition getDeviceIP (addrs : list string + GoError) : Outcome (string * option GoError) :=
  match addrs with
  | inr err => Returns (EmptyString, Some err)
  | inl add =>
      match nth_error add 0 with
      | None => Panics
      | Some a0 =>
          match sliceTo a0 (IndexByte a0 "/") with
          | Panics => Panics
          | Returns address => Returns (address, None)
          end
      end
  end.

(** [packetMsg], as [capturePackets] fills it. *)
Record packetMsg : Type := mkPacketMsg {
  dataType : string;
  device : string;
  deviceIP : string;
  remoteIP : string;
  rawPacket : Packet
}.

(** What [capturePackets] does, in the order it does it. *)
Inductive PacketEffect : Type :=
| PacketLogged (e : LogEntry)
| SendPacket (m : packetMsg)
| CaptureWgDone.

(** The body of the loop of [capturePackets] for one packet; [addrs] is
    what [device.Addrs()] returns when this packet is handled.  The value
    is the lines logged and, unless the body panics, the message it sends
    on [packetChan], if any. *)
Definition capturePacket (dev : Interface) (filter : Filter)
  (packet : Packet) (addrs : list string + GoError)
  : list LogEntry * Outcome (option packetMsg) :=
  if sniffApplicationLayer packet (Application filter) then
    match getDeviceIP addrs with
    | Panics => ([], Panics)
    | Returns (ip, err) =>
        let logs :=
          match err with
          | Some e =>
              [mkLogEntry ErrorLevel [logField "interface" (Name dev); logField "error" e]
                 [LogText "Could not extract IP from local network interface"]]
          | None => []
          end in
        match getRemoteIP packet ip with
        | Panics => (logs, Panics)
        | Returns remote =>
            (logs,
             Returns (Some {| dataType := Type_ filter;
                              device := Name dev;
                              deviceIP := ip;
                              remoteIP := remote;
                              rawPacket := packet |}))
        end
    end
  else ([], Returns None).

(** [for packet := range packetSource.Packets() {...}] over the packets the
    source delivers before it is closed; the flag tells whether the loop
    came to its end. *)
Fixpoint captureLoop (dev : Interface) (filter : Filter)
  (source : list (Packet * (list string + GoError))) : list PacketEffect * bool :=
  match source with
  | [] => ([], true)
  | (packet, addrs) :: rest =>
      match capturePacket dev filter packet addrs with
      | (logs, Panics) => (map PacketLogged logs, false)
      | (logs, Returns sent) =>
          let '(effects, ended) := captureLoop dev filter rest in
          (map PacketLogged logs ++
           match sent with
           | Some m => [SendPacket m]
           | None => []
           end ++ effects,
           ended)
      end
  end.

(** [func capturePackets(device, handle, filter, wg, packetChan)]; the
    deferred [wg.Done()] runs at the end, after a panic as well. *)
Definition capturePackets (dev : Interface) (filter : Filter)
  (source : list (Packet * (list string + GoError))) : list PacketEffect * bool :=
  let '(effects, ended) := captureLoop dev filter source in
  let first :=
    PacketLogged (mkLogEntry InfoLevel []
                    [LogText "Capturing packets on "; LogText (Name dev)]) in
  if ended then
    (first :: effects ++
     [PacketLogged (mkLogEntry InfoLevel []
                      [LogText "Stopping capture on "; LogText (Name dev)]);
      CaptureWgDone],
     true)
  else (first :: effects ++ [CaptureWgDone], false).

(** The messages sent on [packetChan], in order. *)
Fixpoint sentPackets (effects : list PacketEffect) : list packetMsg :=
  match effects with
  | [] => []
  | SendPacket m :: rest => m :: sentPackets rest
  | _ :: rest => sentPackets rest
  end.

Section Handles.

(** A [*pcap.Handle], with [pcap.OpenLive] and [Handle.SetBPFFilter] as
    the library gives them. *)
Context {Handle : Type}.
Variable OpenLive : string -> Z -> bool -> Z -> Handle + GoError.
Variable SetBPFFilter : Handle -> string -> option GoError.

(** The struct [Devices]. *)
Record Devices : Type := mkDevices {
  devices : list Interface;
  handles : list Handle
}.

(** What [Collector] does, in the order it does it. *)
Inductive CaptureEffect : Type :=
| Logged (e : LogEntry)
| CloseHandle (h : Handle)
| WgAdd (delta : Z)
| GoCapturePackets (dev : Interface) (h : Handle)
| AwaitSync
| WgWait
| SyncWgDone.

(** [func openDevice(device net.Interface)], which returns a handle and an
    error: the handle or the error, one of the two. *)
Definition openDevice (device : Interface) : (Handle + GoError) * list LogEntry :=
  match OpenLive (Name device) snapshotLen promiscuous timeout with
  | inr err =>
      (inr err,
       [mkLogEntry ErrorLevel [logField "interface" (Name device); logField "error" err]
          [LogText "Could not open device."]])
  | inl handle =>
      (inl handle,
       [mkLogEntry InfoLevel [logField "interface" (Name device)]
          [LogText "Opened device interface."]])
  end.

(** The loop of [InitialiseCapture] over the devices found. *)
Fixpoint openAll (found : list Interface) (devs : Devices) (logs : list LogEntry)
  : Devices * list LogEntry :=
  match found with
  | [] => (devs, logs)
  | d :: rest =>
      match openDevice d with
      | (inr err, opened) =>
          openAll rest devs
            (logs ++ opened ++
             [mkLogEntry ErrorLevel [logField "error" err]
                [LogText "Could not open device for capture."]])
      | (inl h, opened) =>
          openAll rest
            {| devices := devices devs ++ [d]; handles := handles devs ++ [h] |}
            (logs ++ opened)
      end
  end.

(** [func InitialiseCapture(interfaces []string)], which returns a pointer
    to [Devices] and an error; [None] is [nil] for either. *)
Definition InitialiseCapture (sys : list Interface + GoError) (interfaces : option (list string))
  : Outcome ((option Devices * option GoError) * list LogEntry) :=
  match findDevices sys interfaces with
  | Panics => Panics
  | Returns (None, logs) => Returns ((None, None), logs)
  | Returns (Some found, logs) =>
      let '(devs, logs') := openAll found {| devices := []; handles := [] |} logs in
      if (List.length (devices devs) =? 0)%nat then
        Returns ((None, Some "could not open any device interface"%string),
                 logs' ++
                 [mkLogEntry ErrorLevel [] [LogText "Could not open any device interface."]])
      else Returns ((Some devs, None), logs')
  end.

(** [func closeDevices(devices *Devices)]: the loop from [index] on.  The
    flag tells whether it came to its end; [handles[index]] outside the
    slice panics. *)
Fixpoint closeFrom (index : nat) (ds : list Interface) (hs : list Handle)
  : list CaptureEffect * bool :=
  match ds with
  | [] => ([], true)
  | dev :: rest =>
      let line :=
        Logged (mkLogEntry InfoLevel []
                  [LogText "Closing device on interface "; LogText (Name dev)]) in
      match nth_error hs index with
      | None => ([line], false)
      | Some h =>
          let '(effects, ended) := closeFrom (S index) rest hs in
          (line :: CloseHandle h :: effects, ended)
      end
  end.

Definition closeDevices (devs : Devices) : list CaptureEffect * bool :=
  closeFrom 0 (devices devs) (handles devs).

(** The first loop of [Collector], from [index] on. *)
Fixpoint collectorSetup (network : string) (index : nat) (ds : list Interface)
  (hs : list Handle) : list CaptureEffect * bool :=
  match ds with
  | [] => ([], true)
  | dev :: rest =>
      match nth_error hs index with
      | None => ([WgAdd 1], false)
      | Some h =>
          let filtering :=
            match SetBPFFilter h network with
            | Some err =>
                [Logged (mkLogEntry ErrorLevel [logField "interface" (Name dev); logField "error" err]
                           [LogText "Could not set filter on device. Closing."]);
                 CloseHandle h]
            | None => []
            end in
          let '(effects, ended) := collectorSetup network (S index) rest hs in
          (WgAdd 1 :: filtering ++ GoCapturePackets dev h :: effects, ended)
      end
  end.

(** [func Collector(...)]: what its own goroutine does, in order, the
    goroutines it starts being left to themselves. *)
Definition Collector (filter : Filter) (devs : Devices) : list CaptureEffect * bool :=
  let '(setup, ended) := collectorSetup (Network filter) 0 (devices devs) (handles devs) in
  if ended then
    let '(closing, closed) := closeDevices devs in
    if closed then
      (setup ++ [AwaitSync] ++ closing ++
       [Logged (mkLogEntry InfoLevel [] [LogText "Collector waiting for subs..."]);
        WgWait;
        Logged (mkLogEntry InfoLevel [] [LogText "Collector terminating"]);
        SyncWgDone],
       true)
    else (setup ++ [AwaitSync] ++ closing, false)
  else (setup, false).

(** The handles [closeDevice] is called on, in order. *)
Fixpoint closedHandles (effects : list CaptureEffect) : list Handle :=
  match effects with
  | [] => []
  | CloseHandle h :: rest => h :: closedHandles rest
  | _ :: rest => closedHandles rest
  end.

End Handles.

(** An interface is up. *)
Definition isUp (d : Interface) : bool := negb (Z.land (Flags d) FlagUp =? 0).

(** How many of the interfaces are down. *)
Definition countDown (l : list Interface) : nat :=
  List.length (filter (fun d => negb (isUp d)) l).

(** [l1] is [l2] with some elements left out, the order kept. *)
Inductive subsequence {A : Type} : list A -> list A -> Prop :=
| subsequence_nil : subsequence [] []
| subsequence_skip (l1 l2 : list A) (b : A) :
    subsequence l1 l2 -> subsequence l1 (b :: l2)
| subsequence_take (a : A) (l1 l2 : list A) :
    subsequence l1 l2 -> subsequence (a :: l1) (a :: l2).

(** The capture goroutines started, in order. *)
Fixpoint startedCaptures {Handle : Type} (effects : list (@CaptureEffect Handle))
  : list (Interface * Handle) :=
  match effects with
  | [] => []
  | GoCapturePackets dev h :: rest => (dev, h) :: startedCaptures rest
  | _ :: rest => startedCaptures rest
  end.

(** A text without the byte [c]. *)
Fixpoint lacksByte (c : ascii) (s : string) : bool :=
  match s with
  | EmptyString => true
  | String a tl => negb (a =? c)%char && lacksByte c tl
  end.

(** ** Concrete interfaces, handles and packets *)

(** Flags 19 are up, broadcast and multicast; 5 are up and loopback;
    18 are broadcast and multicast, not up. *)
Definition eth0 : Interface := {| Name := "eth0"; Flags := 19 |}.
Definition eth1 : Interface := {| Name := "eth1"; Flags := 19 |}.
Definition loopback : Interface := {| Name := "lo"; Flags := 5 |}.
Definition wlan0 : Interface := {| Name := "wlan0"; Flags := 18 |}.
Definition tun0 : Interface := {| Name := "tun0"; Flags := 16 |}.

(** Handles named after their device; the loopback cannot be opened. *)
Definition demoOpenLive (name : string) (snaplen : Z) (promisc : bool) (wait : Z)
  : string + GoError :=
  if String.eqb name "lo" then inr "permission denied"%string
  else inl ("pcap:" ++ name)%string.

(** The filter cannot be set on the handle of eth1. *)
Definition demoSetBPFFilter (h : string) (expression : string) : option GoError :=
  if String.eqb h "pcap:eth1" then Some "syntax error"%string else None.

Definition demoFilter : Filter :=
  {| Network := "tcp and port 80"; Application := "HTTP"; Type_ := "http" |}.

Definition demoDevices : @Devices string :=
  {| devices := [eth0; eth1]; handles := ["pcap:eth0"; "pcap:eth1"]%string |}.

(** A request that passes the filter and a packet that does not. *)
Definition httpPacket : Packet :=
  {| applicationPayload := Some "GET /index.html HTTP/1.1"%string;
     networkEndpoints := Some ("10.0.0.7", "192.168.1.5")%string |}.
Definition dnsPacket : Packet :=
  {| applicationPayload := Some "example.org"%string;
     networkEndpoints := Some ("192.168.1.5", "10.0.0.1")%string |}.

Definition demoAddrs : list string + GoError :=
  inl ["192.168.1.5/24"; "fe80::1/64"]%string.

(** ** The watchdog *)

Section Watchdog.

(** The constants [defAlertFormat], [defRecoveryFormat] and [defTimeLayout]
    are declared outside params.go; [fmt.Sprintf] and [Time.Format] belong
    to Go's library.  The development is parametric in all five. *)
Variable defAlertFormat : string.
Variable defRecoveryFormat : string.
Variable defTimeLayout : string.
Variable Sprintf : string -> list FmtArg -> string.
Variable Format : Time -> string -> string.

(** The largest capacity the runtime of the platform grants to a channel
    of [time.Time]; [make] panics beyond it. *)
Variable maxChanCap : Z.

(** [func (w *Watchdog) Hits() int] *)
Definition Hits (w : Watchdog) : Z := toInt (size (cache w)).

(** [func buildAlertMsg(w *Watchdog, recovery bool, t time.Time) alertMsg] *)
Definition buildAlertMsg (w : Watchdog) (recovery : bool) (t : Time) : alertMsg :=
  let message :=
    if recovery then
      Sprintf defRecoveryFormat [ArgString (Format t defTimeLayout)]
    else
      Sprintf defAlertFormat [ArgInt (Hits w); ArgString (Format t defTimeLayout)]
  in
  {| recovery := recovery;
     body := message;
     timestamp := zeroTime |}.

(** [w.alert = b] *)
Definition assignAlert (b : bool) : Act unit := modify (setAlertField b).

(** [w.alertChan <- buildAlertMsg(w, recovery, time.Now())], the clock
    reading [now]. *)
Definition sendAlertMsg (recovery : bool) (now : Time) : Act unit :=
  w <- get ;;
  emit (SendAlert (buildAlertMsg w recovery now)).

(** [func (w *Watchdog) verify()]; [now] is what [time.Now()] returns. *)
Definition verify (now : Time) : Act unit :=
  w <- get ;;
  if Len (list_ (cache w)) <=? 0 then
    when (alert w)
      (assignAlert false ;;
       sendAlertMsg true now)
  else
    if size (cache w) >=? threshold w then
      when (negb (alert w))
        (assignAlert true ;;
         sendAlertMsg false now)
    else
      when (alert w)
        (assignAlert false ;;
         sendAlertMsg true now).

(** The loop of [evict] over the list and the counter: an empty list
    breaks, an expired front element is removed and counted off, any other
    front element breaks. *)
Fixpoint evictLoop (now : Time) (window : Duration) (l : list Time) (sz : Z)
  : list Time * Z :=
  match l with
  | [] => (l, sz)
  | e :: rest =>
      if Sub now e >? window then evictLoop now window rest (wrapUint (sz - 1))
      else (l, sz)
  end.

(** [func (w *Watchdog) evict(now time.Time)] *)
Definition evict (now : Time) : Act unit :=
  modify (fun w =>
    let '(l, sz) := evictLoop now (timeFrame w) (list_ (cache w)) (size (cache w)) in
    setCacheField (setListSize l sz (cache w)) w).

(** [dog.cache.list.PushBack(p)] *)
Definition pushBack (p : Time) : Act unit :=
  modify (fun w =>
    setCacheField (setListSize (list_ (cache w) ++ [p]) (size (cache w)) (cache w)) w).

(** [dog.cache.size++] *)
Definition incrSize : Act unit :=
  modify (fun w =>
    setCacheField (setListSize (list_ (cache w)) (wrapUint (size (cache w) + 1)) (cache w)) w).

(** The struct literal [dog := Watchdog{...}] of [NewWatchdog]. *)
Definition newDog (parameters : Parameters) : Watchdog :=
  {| cache := {| bufSize := WatchdogBufSize parameters;
                 list_ := [];
                 size := 0 |};
     timeFrame := AlertSpan parameters;
     tick := WatchdogTick parameters;
     threshold := AlertThreshold parameters;
     alert := false |}.

(** [make(chan time.Time, size)] with a size of type [uint]: the size is
    taken as an [int]; a negative one, and one over the capacity the
    platform grants, panics ("makechan: size out of range"). *)
Definition makeChan (size : Z) : Outcome unit :=
  if (toInt size <? 0) || (size >? maxChanCap) then Panics else Returns tt.

(** What [NewWatchdog] does besides building its struct: [syn.addRoutine()]
    and the [go] statement, with the watchdog the goroutine works on. *)
Inductive StartEffect : Type :=
| AddRoutine
| GoWatchdogRoutine (dog : Watchdog).

(** [func NewWatchdog(parameters *Parameters, c chan<- alertMsg, syn *Sync) *Watchdog].
    The struct literal makes the channel first, which may panic; then the
    routine is registered and started and the pointer is returned, [None]
    standing for [nil].  There is no error result.  What the goroutine does
    is [watchdogRoutine] below. *)
Definition NewWatchdog (parameters : Parameters)
  : Outcome (option Watchdog * list StartEffect) :=
  match makeChan (WatchdogBufSize parameters) with
  | Panics => Panics
  | Returns _ =>
      let dog := newDog parameters in
      Returns (Some dog, [AddRoutine; GoWatchdogRoutine dog])
  end.

(** One round of the [select]: the value tells whether the loop goes on
    ([false] is [break watchdogLoop]). *)
Definition selectCase (now : Time) (ev : Event) : Act bool :=
  match ev with
  | SyncChan =>
      emit TickerStop ;;
      emit (LogInfo "Watchdog terminating.") ;;
      ret false
  | TickerC t =>
      evict t ;;
      verify now ;;
      ret true
  | CachePush p =>
      pushBack p ;;
      incrSize ;;
      verify now ;;
      ret true
  end.

(** [watchdogLoop: for { select { ... } }] over the events that arrive,
    each paired with the clock reading while it is served. *)
Fixpoint watchdogLoop (evs : list (Time * Event)) : Act unit :=
  match evs with
  | [] => ret tt
  | (now, ev) :: rest =>
      again <- selectCase now ev ;;
      if again then watchdogLoop rest else ret tt
  end.

(** The goroutine: [time.NewTicker] panics on a period that is not
    positive ([None]); [syn.wg.Done()] is deferred to the end. *)
Definition watchdogRoutine (evs : list (Time * Event)) (w : Watchdog)
  : option (Watchdog * list Effect) :=
  if tick w <=? 0 then None
  else
    let r := watchdogLoop evs w in
    Some (stateOf r, effectsOf r ++ [WgDone]).

(** ** Vocabulary of the properties *)

(** A hit of time [t] is within the window at [now]: its age does not
    exceed the window. *)
Definition inWindow (now : Time) (window : Duration) (t : Time) : bool :=
  Sub now t <=? window.

Definition expired (now : Time) (window : Duration) (t : Time) : bool :=
  Sub now t >? window.

(** How many of the timestamps are within the window at [now]. *)
Definition countInWindow (now : Time) (window : Duration) (ts : list Time) : Z :=
  Z.of_nat (List.length (filter (inWindow now window) ts)).

(** Push events for the timestamps of [hits], each with the clock reading
    that goes with it. *)
Definition pushEvents (hits : list (Time * Time)) : list (Time * Event) :=
  map (fun h => (fst h, CachePush (snd h))) hits.

(** The counter agrees with the list. *)
Definition sizeAgrees (w : Watchdog) : Prop :=
  size (cache w) = Len (list_ (cache w)).


(** The pre-state already shows what the threshold comparison says. *)
Definition matchesThreshold (w : Watchdog) : Prop :=
  (alert w = true /\ size (cache w) >= threshold w) \/
  (alert w = false /\ size (cache w) < threshold w).


(** The cache calls for an alert: it is not empty and its counter has
    reached the threshold. *)
Definition callsForAlert (c : hitCache) (limit : Z) : bool :=
  negb (Len (list_ c) <=? 0) && (size c >=? limit).

(** The kinds of the messages alternate, the first one being a recovery
    exactly when [first] is set. *)
Fixpoint alternates (first : bool) (ms : list alertMsg) : bool :=
  match ms with
  | [] => true
  | m :: rest => Bool.eqb (recovery m) first && alternates (negb first) rest
  end.

(** The timestamps of the pushes the loop serves: those ahead of the first
    shutdown. *)
Fixpoint servedPushes (evs : list (Time * Event)) : list Time :=
  match evs with
  | [] => []
  | (_, SyncChan) :: _ => []
  | (_, TickerC _) :: rest => servedPushes rest
  | (_, CachePush p) :: rest => p :: servedPushes rest
  end.

(** ** Concrete data the properties are run on *)

Definition second : Duration := 1000000000.

(** Threshold 3 over a window of 120 seconds, checked every second. *)
Definition demoParameters : Parameters :=
  {| WatchdogBufSize := 100;
     AlertSpan := 120 * second;
     WatchdogTick := 1 * second;
     AlertThreshold := 3 |}.


(** The capacity limit on a 64-bit platform with a heap of 2^48 bytes:
    elements of 24 bytes beside a channel header of 96. *)
Definition demoChanCap : Z := (2 ^ 48 - 96) / 24.

(** Three hits one second apart, each served at the instant it carries. *)
Definition demoHits : list (Time * Time) :=
  [(10 * second, 10 * second);
   (11 * second, 11 * second);
   (12 * second, 12 * second)].

(** Normal, three hits in the cache, threshold 3. *)
Definition quietFullDog : Watchdog :=
  {| cache := {| bufSize := 100;
                 list_ := [10 * second; 11 * second; 12 * second];
                 size := 3 |};
     timeFrame := 120 * second;
     tick := 1 * second;
     threshold := 3;
     alert := false |}.

(** Normal, two hits in the cache, threshold 3. *)
Definition quietTwoHitsDog : Watchdog :=
  {| cache := {| bufSize := 100;
                 list_ := [10 * second; 11 * second];
                 size := 2 |};
     timeFrame := 120 * second;
     tick := 1 * second;
     threshold := 3;
     alert := false |}.

(** Alerting, one hit left in the cache, threshold 3. *)
Definition alertingLowDog : Watchdog :=
  {| cache := {| bufSize := 100;
                 list_ := [12 * second];
                 size := 1 |};
     timeFrame := 120 * second;
     tick := 1 * second;
     threshold := 3;
     alert := true |}.

(** Alerting, three hits in the cache, threshold 3. *)
Definition alertingFullDog : Watchdog :=
  {| cache := {| bufSize := 100;
                 list_ := [10 * second; 11 * second; 12 * second];
                 size := 3 |};
     timeFrame := 120 * second;
     tick := 1 * second;
     threshold := 3;
     alert := true |}.

(** Threshold 0 over a window of 120 seconds, checked every second. *)
Definition zeroThresholdParameters : Parameters :=
  {| WatchdogBufSize := 100;
     AlertSpan := 120 * second;
     WatchdogTick := 1 * second;
     AlertThreshold := 0 |}.

(** Alerting with an empty cache under threshold 0: what the eviction of a
    tick at 200 seconds hands to [verify] after one push at 10 seconds
    into a new watchdog. *)
Definition alertingEmptyDog : Watchdog :=
  {| cache := {| bufSize := 100;
                 list_ := [];
                 size := 0 |};
     timeFrame := 120 * second;
     tick := 1 * second;
     threshold := 0;
     alert := true |}.

(** Hits out of time order: the second is within a window of 150 at 200,
    the first and the third are not. *)
Definition unorderedDog : Watchdog :=
  {| cache := {| bufSize := 100;
                 list_ := [0; 100; 5];
                 size := 3 |};
     timeFrame := 150;
     tick := 1;
     threshold := 3;
     alert := false |}.

(** ** Scalars *)

Lemma wrapUint_small (z : Z) : 0 <= z <= maxUint -> wrapUint z = z.
Proof.
  unfold wrapUint, maxUint. intros H. apply Z.mod_small. lia.
Qed.

Lemma wrapUint_add_l (a b : Z) : wrapUint (wrapUint a + b) = wrapUint (a + b).
Proof.
  unfold wrapUint. apply Zdiv.Zplus_mod_idemp_l.
Qed.

Lemma toInt_small (u : Z) : u <= maxInt -> toInt u = u.
Proof.
  unfold toInt. intros H. destruct (Z.leb_spec u maxInt); [reflexivity | lia].
Qed.

Lemma maxInt_lt_maxUint : maxInt < maxUint.
Proof. reflexivity. Qed.

Lemma Len_nonneg (l : list Time) : 0 <= Len l.
Proof. unfold Len. lia. Qed.

Lemma Len_app (l1 l2 : list Time) : Len (l1 ++ l2) = Len l1 + Len l2.
Proof. unfold Len. rewrite length_app. lia. Qed.

Lemma Len_cons (e : Time) (l : list Time) : Len (e :: l) = Len l + 1.
Proof. unfold Len. cbn [List.length]. lia. Qed.

(** A later hit is never older than an earlier one. *)
Lemma Sub_antitone (now t u : Time) : t <= u -> Sub now u <= Sub now t.
Proof. unfold Sub. lia. Qed.

Lemma Sub_in_range (t u : Time) : minDuration <= Sub t u <= maxDuration.
Proof. unfold Sub, minDuration, maxDuration. lia. Qed.

(** Below the top of the range the saturation of [Sub] does not show in the
    comparison with the window. *)
Lemma Sub_le_window (now t : Time) (window : Duration) :
  minDuration <= window < maxDuration ->
  (Sub now t <= window <-> now - t <= window).
Proof. unfold Sub, minDuration, maxDuration. lia. Qed.

Lemma expired_inWindow (now : Time) (window : Duration) (t : Time) :
  expired now window t = negb (inWindow now window t).
Proof.
  unfold expired, inWindow. rewrite Z.gtb_ltb, Z.ltb_antisym. reflexivity.
Qed.

Lemma expired_spec (now : Time) (window : Duration) (t : Time) :
  expired now window t = true <-> Sub now t > window.
Proof. unfold expired. rewrite Z.gtb_ltb, Z.ltb_lt. lia. Qed.

Lemma inWindow_spec (now : Time) (window : Duration) (t : Time) :
  inWindow now window t = true <-> Sub now t <= window.
Proof. unfold inWindow. apply Z.leb_le. Qed.

(** For a window below the top of the [Duration] range, counting by the
    age [Sub] reports is counting by the difference of the two instants. *)
Lemma countInWindow_exact (now : Time) (window : Duration) (ts : list Time) :
  minDuration <= window < maxDuration ->
  countInWindow now window ts =
  Z.of_nat (List.length (filter (fun t => now - t <=? window) ts)).
Proof.
  intros Hw. unfold countInWindow. do 2 f_equal.
  apply filter_ext. intros t. unfold inWindow.
  pose proof (Sub_le_window now t window Hw) as Hiff.
  destruct (Z.leb_spec (Sub now t) window), (Z.leb_spec (now - t) window);
    try reflexivity; lia.
Qed.

(** ** The eviction loop *)

Lemma evictLoop_cons (now : Time) (window : Duration) (e : Time) (rest : list Time) (sz : Z) :
  evictLoop now window (e :: rest) sz =
  if expired now window e then evictLoop now window rest (wrapUint (sz - 1))
  else (e :: rest, sz).
Proof. reflexivity. Qed.

(** The loop splits the list into the removed head, all of it expired, and
    the list it leaves, which is empty or starts within the window. *)
Lemma evictLoop_split (now : Time) (window : Duration) (l : list Time) :
  forall sz, exists removed,
    l = removed ++ fst (evictLoop now window l sz) /\
    Forall (fun e => expired now window e = true) removed /\
    (forall e rest, fst (evictLoop now window l sz) = e :: rest ->
                    inWindow now window e = true).
Proof.
  induction l as [| a l IH]; intros sz.
  - exists []. cbn. repeat split; [constructor | discriminate].
  - rewrite evictLoop_cons. destruct (expired now window a) eqn:Ha.
    + destruct (IH (wrapUint (sz - 1))) as (removed & Hl & Hall & Hhead).
      exists (a :: removed). repeat split.
      * cbn. f_equal. exact Hl.
      * constructor; assumption.
      * exact Hhead.
    + exists []. repeat split; [constructor |].
      cbn. intros e rest Heq. injection Heq as <- _.
      rewrite expired_inWindow in Ha. now apply negb_false_iff in Ha.
Qed.

(** Whatever comes at or after a hit within the window stays. *)
Lemma evictLoop_keeps_suffix (now : Time) (window : Duration) (pre : list Time) :
  forall e post sz,
    inWindow now window e = true ->
    exists pre', fst (evictLoop now window (pre ++ e :: post) sz) = pre' ++ e :: post.
Proof.
  induction pre as [| a pre IH]; intros e post sz He.
  - exists []. cbn [app]. rewrite evictLoop_cons, expired_inWindow, He. reflexivity.
  - cbn [app]. rewrite evictLoop_cons. destruct (expired now window a).
    + apply IH. exact He.
    + exists (a :: pre). reflexivity.
Qed.

(** The counter goes down by one for each removed element. *)
Lemma evictLoop_size (now : Time) (window : Duration) (l : list Time) :
  forall sz, sz = Len l -> Len l <= maxUint ->
    snd (evictLoop now window l sz) = Len (fst (evictLoop now window l sz)).
Proof.
  induction l as [| a l IH]; intros sz Hsz Hmax.
  - cbn. exact Hsz.
  - rewrite evictLoop_cons. destruct (expired now window a).
    + rewrite Len_cons in Hsz, Hmax. pose proof (Len_nonneg l).
      apply IH; [| lia]. rewrite wrapUint_small; lia.
    + exact Hsz.
Qed.

(** On hits in time order, what the loop leaves is what a filter keeps. *)
Lemma evictLoop_sorted (now : Time) (window : Duration) (l : list Time) :
  forall sz, StronglySorted Z.le l ->
    fst (evictLoop now window l sz) = filter (inWindow now window) l.
Proof.
  induction l as [| a l IH]; intros sz Hs.
  - reflexivity.
  - inversion Hs as [| ? ? Hs' Hall]; subst.
    rewrite evictLoop_cons. cbn [filter].
    rewrite expired_inWindow. destruct (inWindow now window a) eqn:Ha; cbn [negb].
    + cbn [fst]. f_equal. symmetry. apply forallb_filter_id.
      apply forallb_forall. intros x Hx.
      rewrite Forall_forall in Hall. specialize (Hall x Hx).
      apply inWindow_spec in Ha. apply inWindow_spec.
      pose proof (Sub_antitone now a x Hall). lia.
    + apply IH. exact Hs'.
Qed.

(** ** The transition check *)

Ltac run_act :=
  cbv [bind get modify emit ret when assignAlert sendAlertMsg stateOf effectsOf valueOf
       fst snd app].

(** [verify] by cases, as one equation. *)
Lemma verify_eq (now : Time) (w : Watchdog) :
  verify now w =
  if Len (list_ (cache w)) <=? 0 then
    if alert w then
      (tt, setAlertField false w,
       [SendAlert (buildAlertMsg (setAlertField false w) true now)])
    else (tt, w, [])
  else if size (cache w) >=? threshold w then
    if alert w then (tt, w, [])
    else
      (tt, setAlertField true w,
       [SendAlert (buildAlertMsg (setAlertField true w) false now)])
  else
    if alert w then
      (tt, setAlertField false w,
       [SendAlert (buildAlertMsg (setAlertField false w) true now)])
    else (tt, w, []).
Proof.
  unfold verify. run_act.
  destruct (Len (list_ (cache w)) <=? 0);
    [| destruct (size (cache w) >=? threshold w)];
    destruct (alert w); reflexivity.
Qed.

Lemma Hits_setAlertField (b : bool) (w : Watchdog) :
  Hits (setAlertField b w) = Hits w.
Proof. reflexivity. Qed.

Lemma setAlertField_same (w : Watchdog) : setAlertField (alert w) w = w.
Proof. destruct w; reflexivity. Qed.

(** [verify] writes nothing but the flag. *)
Lemma verify_state (now : Time) (w : Watchdog) :
  stateOf (verify now w) = setAlertField (alert (stateOf (verify now w))) w.
Proof.
  rewrite verify_eq.
  destruct (Len (list_ (cache w)) <=? 0);
    [| destruct (size (cache w) >=? threshold w)];
    destruct (alert w) eqn:Ha; cbn [stateOf fst snd setAlertField alert];
    try reflexivity; symmetry; apply setAlertField_same.
Qed.

Lemma verify_cache (now : Time) (w : Watchdog) :
  cache (stateOf (verify now w)) = cache w.
Proof. rewrite verify_state. reflexivity. Qed.

Lemma Len_pos_nonempty (l : list Time) : (Len l <=? 0) = false <-> l <> [].
Proof.
  rewrite Z.leb_gt. destruct l as [| e l].
  - cbn. split; [lia | congruence].
  - rewrite Len_cons. pose proof (Len_nonneg l). split; [discriminate | lia].
Qed.

Lemma Len_zero_empty (l : list Time) : (Len l <=? 0) = true <-> l = [].
Proof.
  rewrite Z.leb_le. destruct l as [| e l].
  - cbn. split; [reflexivity | lia].
  - rewrite Len_cons. pose proof (Len_nonneg l). split; [lia | discriminate].
Qed.

Lemma geb_true (a b : Z) : (a >=? b) = true <-> a >= b.
Proof. rewrite Z.geb_leb, Z.leb_le. lia. Qed.

Lemma geb_false (a b : Z) : (a >=? b) = false <-> a < b.
Proof. rewrite Z.geb_leb, Z.leb_gt. lia. Qed.

(** C2: in a state that is not alerting, with a non-empty cache whose size
    is at least the threshold, [verify] raises the flag and sends exactly
    one message; the message is not a recovery and its body is the alert
    format applied to the current hit count and the formatted clock
    reading.  The cache is left as it was. *)
Theorem C2_verify_raises_alert (now : Time) (w : Watchdog) :
  alert w = false ->
  list_ (cache w) <> [] ->
  size (cache w) >= threshold w ->
  alert (stateOf (verify now w)) = true /\
  cache (stateOf (verify now w)) = cache w /\
  effectsOf (verify now w) =
    [SendAlert {| recovery := false;
                  body := Sprintf defAlertFormat
                            [ArgInt (Hits w); ArgString (Format now defTimeLayout)];
                  timestamp := zeroTime |}].
Proof.
  intros Ha Hne Hsz.
  apply (proj2 (Len_pos_nonempty _)) in Hne. apply (proj2 (geb_true _ _)) in Hsz.
  rewrite verify_eq, Hne, Hsz, Ha.
  repeat split.
Qed.

(** C3: in an alerting state whose cache is empty or whose size is below
    the threshold, [verify] lowers the flag and sends exactly one message;
    the message is a recovery and its body is the recovery format applied
    to the formatted clock reading alone, with no hit count among the
    operands.  The cache is left as it was. *)
Theorem C3_verify_sends_recovery (now : Time) (w : Watchdog) :
  alert w = true ->
  list_ (cache w) = [] \/ size (cache w) < threshold w ->
  alert (stateOf (verify now w)) = false /\
  cache (stateOf (verify now w)) = cache w /\
  effectsOf (verify now w) =
    [SendAlert {| recovery := true;
                  body := Sprintf defRecoveryFormat
                            [ArgString (Format now defTimeLayout)];
                  timestamp := zeroTime |}].
Proof.
  intros Ha Hlow. rewrite verify_eq, Ha.
  destruct (Len (list_ (cache w)) <=? 0) eqn:Hlen.
  - repeat split.
  - destruct Hlow as [Hempty | Hlt].
    + apply (proj1 (Len_pos_nonempty _)) in Hlen. contradiction.
    + apply (proj2 (geb_false _ _)) in Hlt. rewrite Hlt. repeat split.
Qed.

(** C4, amended: one call of [verify] sends at most one message and
    nothing else, sends one exactly when it flips the flag, and never
    touches the cache; when the state is alerting with a non-empty cache of
    size at least the threshold, or is not alerting with a size below the
    threshold, the call changes nothing and sends nothing. *)
Theorem C4_verify_message_iff_flip (now : Time) (w : Watchdog) :
  effectsOf (verify now w) = map SendAlert (alertsOf (effectsOf (verify now w))) /\
  (List.length (alertsOf (effectsOf (verify now w))) <= 1)%nat /\
  (alertsOf (effectsOf (verify now w)) <> [] <->
   alert (stateOf (verify now w)) <> alert w) /\
  cache (stateOf (verify now w)) = cache w /\
  ((alert w = true /\ list_ (cache w) <> [] /\ size (cache w) >= threshold w) \/
   (alert w = false /\ size (cache w) < threshold w) ->
   verify now w = (tt, w, [])).
Proof.
  split; [| split; [| split; [| split]]].
  - rewrite verify_eq.
    destruct (Len (list_ (cache w)) <=? 0);
      [| destruct (size (cache w) >=? threshold w)];
      destruct (alert w); reflexivity.
  - rewrite verify_eq.
    destruct (Len (list_ (cache w)) <=? 0);
      [| destruct (size (cache w) >=? threshold w)];
      destruct (alert w); cbn; lia.
  - rewrite verify_eq.
    destruct (Len (list_ (cache w)) <=? 0);
      [| destruct (size (cache w) >=? threshold w)];
      destruct (alert w) eqn:Ha; cbn; rewrite ?Ha; split; intros H; congruence.
  - apply verify_cache.
  - intros [(Ha & Hne & Hsz) | (Ha & Hlt)]; rewrite verify_eq, Ha.
    + apply (proj2 (Len_pos_nonempty _)) in Hne.
      apply (proj2 (geb_true _ _)) in Hsz.
      rewrite Hne, Hsz. reflexivity.
    + apply (proj2 (geb_false _ _)) in Hlt. rewrite Hlt.
      destruct (Len (list_ (cache w)) <=? 0); reflexivity.
Qed.

(** C9: whatever the state, the kind of message and the time passed in,
    [buildAlertMsg] leaves the [timestamp] field at the zero time; the time
    reaches the message only through [Format], as an operand of the body.
    The same holds of every message [verify] sends. *)
Theorem C9_buildAlertMsg_timestamp_zero (w : Watchdog) (isRecovery : bool) (t : Time) :
  timestamp (buildAlertMsg w isRecovery t) = zeroTime /\
  recovery (buildAlertMsg w isRecovery t) = isRecovery /\
  body (buildAlertMsg w isRecovery t) =
    (if isRecovery
     then Sprintf defRecoveryFormat [ArgString (Format t defTimeLayout)]
     else Sprintf defAlertFormat [ArgInt (Hits w); ArgString (Format t defTimeLayout)]) /\
  Forall (fun m => timestamp m = zeroTime) (alertsOf (effectsOf (verify t w))).
Proof.
  repeat split.
  rewrite verify_eq.
  destruct (Len (list_ (cache w)) <=? 0);
    [| destruct (size (cache w) >=? threshold w)];
    destruct (alert w); cbn; repeat constructor.
Qed.

(** ** Eviction on the watchdog *)

Lemma evict_eq (now : Time) (w : Watchdog) :
  evict now w =
  (tt,
   setCacheField
     (setListSize
        (fst (evictLoop now (timeFrame w) (list_ (cache w)) (size (cache w))))
        (snd (evictLoop now (timeFrame w) (list_ (cache w)) (size (cache w))))
        (cache w)) w,
   []).
Proof.
  unfold evict, modify.
  destruct (evictLoop now (timeFrame w) (list_ (cache w)) (size (cache w))).
  reflexivity.
Qed.

Lemma evict_list (now : Time) (w : Watchdog) :
  list_ (cache (stateOf (evict now w))) =
  fst (evictLoop now (timeFrame w) (list_ (cache w)) (size (cache w))).
Proof. rewrite evict_eq. reflexivity. Qed.

Lemma evict_size (now : Time) (w : Watchdog) :
  size (cache (stateOf (evict now w))) =
  snd (evictLoop now (timeFrame w) (list_ (cache w)) (size (cache w))).
Proof. rewrite evict_eq. reflexivity. Qed.

Lemma evict_sizeAgrees (now : Time) (w : Watchdog) :
  sizeAgrees w -> Len (list_ (cache w)) <= maxUint ->
  sizeAgrees (stateOf (evict now w)).
Proof.
  unfold sizeAgrees. intros Hs Hmax.
  rewrite evict_list, evict_size. apply evictLoop_size; assumption.
Qed.

Lemma evict_Len_le (now : Time) (w : Watchdog) :
  Len (list_ (cache (stateOf (evict now w)))) <= Len (list_ (cache w)).
Proof.
  rewrite evict_list.
  destruct (evictLoop_split now (timeFrame w) (list_ (cache w)) (size (cache w)))
    as (removed & Hl & _).
  rewrite Hl at 2. rewrite Len_app. pose proof (Len_nonneg removed). lia.
Qed.

(** What [evict] takes away and what it leaves. *)
Lemma evict_split (now : Time) (w : Watchdog) :
  exists removed,
    list_ (cache w) = removed ++ list_ (cache (stateOf (evict now w))) /\
    Forall (fun e => Sub now e > timeFrame w) removed /\
    (forall e rest, list_ (cache (stateOf (evict now w))) = e :: rest ->
                    Sub now e <= timeFrame w).
Proof.
  rewrite evict_list.
  destruct (evictLoop_split now (timeFrame w) (list_ (cache w)) (size (cache w)))
    as (removed & Hl & Hall & Hhead).
  exists removed. split; [exact Hl | split].
  - eapply Forall_impl; [| exact Hall].
    intros e He. now apply expired_spec.
  - intros e rest Heq. apply inWindow_spec. eapply Hhead. exact Heq.
Qed.

(** C10: on any cache contents, in time order or not, [evict] takes away a
    head segment of the list and nothing else; every element it takes away
    is older than the window; what it leaves is empty or starts with an
    element within the window; and an element within the window stays
    together with everything behind it, whatever the age of what is
    behind. *)
Theorem C10_evict_removes_expired_prefix_only (now : Time) (w : Watchdog) :
  exists removed,
    list_ (cache w) = removed ++ list_ (cache (stateOf (evict now w))) /\
    Forall (fun e => Sub now e > timeFrame w) removed /\
    (forall e rest, list_ (cache (stateOf (evict now w))) = e :: rest ->
                    Sub now e <= timeFrame w) /\
    (forall pre e post,
        list_ (cache w) = pre ++ e :: post ->
        Sub now e <= timeFrame w ->
        exists pre', list_ (cache (stateOf (evict now w))) = pre' ++ e :: post).
Proof.
  destruct (evict_split now w) as (removed & Hl & Hall & Hhead).
  exists removed. split; [exact Hl | split; [exact Hall | split; [exact Hhead |]]].
  intros pre e post Hsplit He. rewrite evict_list, Hsplit.
  apply evictLoop_keeps_suffix. now apply inWindow_spec.
Qed.

(** ** The command loop *)

Lemma bind_eq {A B : Type} (c : Act A) (k : A -> Act B) (w : Watchdog) :
  bind c k w =
  (valueOf (k (valueOf (c w)) (stateOf (c w))),
   stateOf (k (valueOf (c w)) (stateOf (c w))),
   effectsOf (c w) ++ effectsOf (k (valueOf (c w)) (stateOf (c w)))).
Proof.
  unfold bind, valueOf, stateOf, effectsOf.
  destruct (c w) as [[a w1] o1]. cbn [fst snd].
  destruct (k a w1) as [[b w2] o2]. reflexivity.
Qed.

(** The tick case: [evict], then [verify] on what [evict] left. *)
Lemma selectCase_tick (now t : Time) (w : Watchdog) :
  selectCase now (TickerC t) w =
  (true,
   stateOf (verify now (stateOf (evict t w))),
   effectsOf (verify now (stateOf (evict t w)))).
Proof.
  cbn [selectCase]. rewrite !bind_eq, evict_eq.
  cbn [stateOf effectsOf valueOf fst snd ret app]. rewrite app_nil_r. reflexivity.
Qed.

(** The push case: [PushBack], then [size++], then [verify] on the result. *)
Lemma selectCase_push (now p : Time) (w : Watchdog) :
  selectCase now (CachePush p) w =
  (true,
   stateOf (verify now (stateOf (incrSize (stateOf (pushBack p w))))),
   effectsOf (verify now (stateOf (incrSize (stateOf (pushBack p w)))))).
Proof.
  cbn [selectCase]. rewrite !bind_eq.
  cbn [pushBack incrSize modify stateOf effectsOf valueOf fst snd ret app].
  rewrite app_nil_r. reflexivity.
Qed.

Lemma selectCase_sync (now : Time) (w : Watchdog) :
  selectCase now SyncChan w =
  (false, w, [TickerStop; LogInfo "Watchdog terminating."]).
Proof. reflexivity. Qed.

Lemma pushed_cache (p : Time) (w : Watchdog) :
  cache (stateOf (incrSize (stateOf (pushBack p w)))) =
  {| bufSize := bufSize (cache w);
     list_ := list_ (cache w) ++ [p];
     size := wrapUint (size (cache w) + 1) |}.
Proof. reflexivity. Qed.

Lemma watchdogLoop_cons (now : Time) (ev : Event) (rest : list (Time * Event)) (w : Watchdog) :
  watchdogLoop ((now, ev) :: rest) w =
  if valueOf (selectCase now ev w) then
    (tt,
     stateOf (watchdogLoop rest (stateOf (selectCase now ev w))),
     effectsOf (selectCase now ev w) ++
     effectsOf (watchdogLoop rest (stateOf (selectCase now ev w))))
  else (tt, stateOf (selectCase now ev w), effectsOf (selectCase now ev w)).
Proof.
  cbn [watchdogLoop]. rewrite bind_eq.
  destruct (valueOf (selectCase now ev w)).
  - destruct (watchdogLoop rest (stateOf (selectCase now ev w))) as [[[] w2] o2].
    reflexivity.
  - cbn [ret valueOf stateOf effectsOf fst snd]. rewrite app_nil_r. reflexivity.
Qed.

(** What one round of the loop does to the cache. *)
Lemma selectCase_cache (now : Time) (ev : Event) (w : Watchdog) :
  cache (stateOf (selectCase now ev w)) =
  match ev with
  | SyncChan => cache w
  | TickerC t => cache (stateOf (evict t w))
  | CachePush p =>
      {| bufSize := bufSize (cache w);
         list_ := list_ (cache w) ++ [p];
         size := wrapUint (size (cache w) + 1) |}
  end.
Proof.
  destruct ev as [| t | p].
  - reflexivity.
  - rewrite selectCase_tick. cbn [stateOf fst snd]. apply verify_cache.
  - rewrite selectCase_push. cbn [stateOf fst snd]. rewrite verify_cache.
    apply pushed_cache.
Qed.

Lemma selectCase_timeFrame (now : Time) (ev : Event) (w : Watchdog) :
  timeFrame (stateOf (selectCase now ev w)) = timeFrame w.
Proof.
  destruct ev as [| t | p].
  - reflexivity.
  - rewrite selectCase_tick. cbn [stateOf fst snd].
    rewrite verify_state, evict_eq. reflexivity.
  - rewrite selectCase_push. cbn [stateOf fst snd].
    rewrite verify_state. reflexivity.
Qed.

Lemma wrapUint_idem (z : Z) : wrapUint (wrapUint z) = wrapUint z.
Proof. unfold wrapUint. apply Z.mod_mod. discriminate. Qed.

(** Only the shutdown case leaves the loop. *)
Lemma selectCase_value (now : Time) (ev : Event) (w : Watchdog) :
  valueOf (selectCase now ev w) =
  match ev with
  | SyncChan => false
  | _ => true
  end.
Proof.
  destruct ev as [| t | p].
  - reflexivity.
  - rewrite selectCase_tick. reflexivity.
  - rewrite selectCase_push. reflexivity.
Qed.

Lemma watchdogLoop_cons_state (now : Time) (ev : Event) (rest : list (Time * Event))
  (w : Watchdog) :
  ev <> SyncChan ->
  stateOf (watchdogLoop ((now, ev) :: rest) w) =
  stateOf (watchdogLoop rest (stateOf (selectCase now ev w))).
Proof.
  intros Hev. rewrite watchdogLoop_cons, selectCase_value.
  destruct ev; [congruence | reflexivity | reflexivity].
Qed.

(** A run of pushes appends the pushed timestamps in order and counts
    them, modulo the width of the counter. *)
Lemma watchdogLoop_pushes (hits : list (Time * Time)) :
  forall w,
    wrapUint (size (cache w)) = size (cache w) ->
    list_ (cache (stateOf (watchdogLoop (pushEvents hits) w))) =
      list_ (cache w) ++ map snd hits /\
    size (cache (stateOf (watchdogLoop (pushEvents hits) w))) =
      wrapUint (size (cache w) + Len (map snd hits)) /\
    timeFrame (stateOf (watchdogLoop (pushEvents hits) w)) = timeFrame w.
Proof.
  induction hits as [| [now p] hits IH]; intros w Hw.
  - cbn. rewrite app_nil_r, Z.add_0_r. auto.
  - cbn [pushEvents map fst snd]. fold (pushEvents hits).
    rewrite watchdogLoop_cons_state by discriminate.
    assert (Hc := selectCase_cache now (CachePush p) w).
    assert (Ht := selectCase_timeFrame now (CachePush p) w).
    destruct (IH (stateOf (selectCase now (CachePush p) w))) as (Hl & Hs & Hf).
    { rewrite Hc. cbn [size]. apply wrapUint_idem. }
    rewrite Hl, Hs, Hf, Hc, Ht. cbn [list_ size].
    repeat split.
    + rewrite <- app_assoc. reflexivity.
    + rewrite wrapUint_add_l, Len_cons. f_equal. lia.
Qed.

(** C1: after pushes of weakly increasing timestamps into a new watchdog,
    an eviction at time [T] leaves a cache whose size, as counter, as
    [Hits()] and as list length, is the number of pushed timestamps whose
    age at [T] is at most the window; the list left is the pushed list
    without a head segment that holds exactly the timestamps older than
    the window, and it is empty or starts within the window.  The number of
    pushes is one a Go [int] can hold. *)
Theorem C1_evict_size_counts_hits_in_window
  (p : Parameters) (hits : list (Time * Time)) (T : Time) :
  Sorted Z.le (map snd hits) ->
  Len (map snd hits) <= maxInt ->
  let pushed := stateOf (watchdogLoop (pushEvents hits) (newDog p)) in
  let after := stateOf (evict T pushed) in
  size (cache after) = countInWindow T (AlertSpan p) (map snd hits) /\
  Hits after = countInWindow T (AlertSpan p) (map snd hits) /\
  Len (list_ (cache after)) = countInWindow T (AlertSpan p) (map snd hits) /\
  list_ (cache after) = filter (inWindow T (AlertSpan p)) (map snd hits) /\
  exists removed,
    map snd hits = removed ++ list_ (cache after) /\
    Forall (fun t => Sub T t > AlertSpan p) removed /\
    (forall t rest, list_ (cache after) = t :: rest -> Sub T t <= AlertSpan p).
Proof.
  intros Hsorted Hfit pushed after.
  destruct (watchdogLoop_pushes hits (newDog p)) as (Hl & Hs & Hf);
    [reflexivity |].
  fold pushed in Hl, Hs, Hf. cbn [newDog cache list_ size timeFrame app] in Hl, Hs, Hf.
  pose proof (Len_nonneg (map snd hits)) as Hnn.
  pose proof maxInt_lt_maxUint as Hmm.
  rewrite Z.add_0_l, wrapUint_small in Hs by lia.
  assert (Hagree : sizeAgrees pushed) by (unfold sizeAgrees; congruence).
  assert (Hlist : list_ (cache after) = filter (inWindow T (AlertSpan p)) (map snd hits)).
  { unfold after. rewrite evict_list, Hf, Hl.
    apply evictLoop_sorted. apply Sorted_StronglySorted; [| exact Hsorted].
    intros x y z. apply Z.le_trans. }
  assert (Hsize : size (cache after) = Len (list_ (cache after))).
  { apply evict_sizeAgrees; [exact Hagree | rewrite Hl; lia]. }
  assert (Hcount : Len (list_ (cache after)) = countInWindow T (AlertSpan p) (map snd hits)).
  { rewrite Hlist. reflexivity. }
  assert (Hle : Len (list_ (cache after)) <= Len (map snd hits)).
  { rewrite <- Hl. apply evict_Len_le. }
  split; [congruence | split; [| split; [exact Hcount | split; [exact Hlist |]]]].
  - unfold Hits. rewrite toInt_small; [congruence | lia].
  - destruct (evict_split T pushed) as (removed & Hsplit & Hall & Hhead).
    fold after in Hsplit, Hhead. rewrite Hl in Hsplit. rewrite Hf in Hall, Hhead.
    exists removed. auto.
Qed.

(** ** The counter and the list *)

Lemma selectCase_sizeAgrees (now : Time) (ev : Event) (w : Watchdog) :
  sizeAgrees w ->
  Len (list_ (cache w)) < maxInt ->
  sizeAgrees (stateOf (selectCase now ev w)) /\
  Len (list_ (cache (stateOf (selectCase now ev w)))) <= Len (list_ (cache w)) + 1.
Proof.
  unfold sizeAgrees. intros Hs Hfit.
  pose proof (Len_nonneg (list_ (cache w))) as Hnn.
  pose proof maxInt_lt_maxUint as Hmm.
  rewrite selectCase_cache. destruct ev as [| t | p].
  - split; [exact Hs | lia].
  - split.
    + apply evict_sizeAgrees; [exact Hs | lia].
    + pose proof (evict_Len_le t w). lia.
  - cbn [list_ size]. rewrite Len_app, Hs, wrapUint_small.
    + cbn. lia.
    + lia.
Qed.

Lemma watchdogLoop_sizeAgrees (evs : list (Time * Event)) :
  forall w,
    sizeAgrees w ->
    Len (list_ (cache w)) + Z.of_nat (List.length evs) <= maxInt ->
    sizeAgrees (stateOf (watchdogLoop evs w)) /\
    Len (list_ (cache (stateOf (watchdogLoop evs w)))) <= maxInt.
Proof.
  induction evs as [| [now ev] evs IH]; intros w Hs Hfit.
  - cbn [List.length] in Hfit. cbn [watchdogLoop ret stateOf fst snd].
    split; [exact Hs | lia].
  - cbn [List.length] in Hfit.
    destruct (selectCase_sizeAgrees now ev w Hs) as (Hs1 & Hlen1); [lia |].
    rewrite watchdogLoop_cons, selectCase_value.
    destruct ev as [| t | p]; cbn [stateOf fst snd].
    + split; [exact Hs1 | lia].
    + apply IH; [exact Hs1 | lia].
    + apply IH; [exact Hs1 | lia].
Qed.

(** Without any bound on the length, the counter is the length of the list
    modulo the width of [uint]: the comparison
    [w.cache.size == uint(w.cache.list.Len())] holds throughout. *)
Lemma evictLoop_size_mod (now : Time) (window : Duration) (l : list Time) :
  forall sz, sz = wrapUint (Len l) ->
    snd (evictLoop now window l sz) = wrapUint (Len (fst (evictLoop now window l sz))).
Proof.
  induction l as [| a l IH]; intros sz Hsz.
  - exact Hsz.
  - rewrite evictLoop_cons. destruct (expired now window a).
    + apply IH. rewrite Hsz, Len_cons. unfold wrapUint.
      rewrite Zdiv.Zminus_mod_idemp_l. f_equal. lia.
    + exact Hsz.
Qed.

Lemma selectCase_size_mod (now : Time) (ev : Event) (w : Watchdog) :
  size (cache w) = wrapUint (Len (list_ (cache w))) ->
  size (cache (stateOf (selectCase now ev w))) =
  wrapUint (Len (list_ (cache (stateOf (selectCase now ev w))))).
Proof.
  intros Hs. rewrite selectCase_cache. destruct ev as [| t | p].
  - exact Hs.
  - rewrite evict_size, evict_list. apply evictLoop_size_mod. exact Hs.
  - cbn [list_ size]. rewrite Hs, wrapUint_add_l, Len_app. reflexivity.
Qed.

(** C5: the counter equals the length of the list in the state
    [NewWatchdog] builds; every round of the command loop keeps it so, and
    [Hits()] is then the length of the list: a push appends one element and
    adds one to the counter, an eviction takes one off the counter for each
    element it removes, the shutdown leaves both alone.  Hence after any run
    of the loop from the new state the counter, and [Hits()], is the number
    of elements held.  List lengths are those a Go [int] can hold. *)
Theorem C5_size_counts_the_list :
  (forall p, sizeAgrees (newDog p) /\ Hits (newDog p) = 0) /\
  (forall now ev w,
      sizeAgrees w ->
      Len (list_ (cache w)) < maxInt ->
      sizeAgrees (stateOf (selectCase now ev w)) /\
      Hits (stateOf (selectCase now ev w)) =
        Len (list_ (cache (stateOf (selectCase now ev w))))) /\
  (forall now p w,
      sizeAgrees w ->
      Len (list_ (cache w)) < maxInt ->
      list_ (cache (stateOf (selectCase now (CachePush p) w))) = list_ (cache w) ++ [p] /\
      size (cache (stateOf (selectCase now (CachePush p) w))) = size (cache w) + 1) /\
  (forall now t w,
      sizeAgrees w ->
      Len (list_ (cache w)) < maxInt ->
      exists removed,
        list_ (cache w) = removed ++ list_ (cache (stateOf (selectCase now (TickerC t) w))) /\
        size (cache (stateOf (selectCase now (TickerC t) w))) =
          size (cache w) - Len removed) /\
  (forall p evs,
      Z.of_nat (List.length evs) <= maxInt ->
      sizeAgrees (stateOf (watchdogLoop evs (newDog p))) /\
      Hits (stateOf (watchdogLoop evs (newDog p))) =
        Len (list_ (cache (stateOf (watchdogLoop evs (newDog p)))))).
Proof.
  split; [| split; [| split; [| split]]].
  - intros p. split; reflexivity.
  - intros now ev w Hs Hfit.
    destruct (selectCase_sizeAgrees now ev w Hs Hfit) as (Hs1 & Hlen1).
    split; [exact Hs1 |].
    unfold Hits. rewrite toInt_small; [exact Hs1 |]. rewrite Hs1. lia.
  - intros now p w Hs Hfit. rewrite selectCase_cache. cbn [list_ size].
    split; [reflexivity |].
    pose proof (Len_nonneg (list_ (cache w))). pose proof maxInt_lt_maxUint.
    unfold sizeAgrees in Hs. apply wrapUint_small. lia.
  - intros now t w Hs Hfit.
    pose proof maxInt_lt_maxUint.
    assert (Hs1 : sizeAgrees (stateOf (evict t w)))
      by (apply evict_sizeAgrees; [exact Hs | lia]).
    destruct (evict_split t w) as (removed & Hsplit & _).
    exists removed. rewrite selectCase_cache. split; [exact Hsplit |].
    unfold sizeAgrees in Hs, Hs1. rewrite Hs1, Hs.
    rewrite Hsplit at 1. rewrite Len_app. lia.
  - intros p evs Hfit.
    destruct (watchdogLoop_sizeAgrees evs (newDog p)) as (Hs1 & Hlen1).
    + reflexivity.
    + cbn [newDog cache list_]. unfold Len. cbn [List.length]. lia.
    + split; [exact Hs1 |].
      unfold Hits. rewrite toInt_small; [exact Hs1 |]. rewrite Hs1. lia.
Qed.

(** ** Order within one round *)

Lemma evictLoop_again (now : Time) (window : Duration) (l : list Time) :
  forall sz,
    evictLoop now window (fst (evictLoop now window l sz)) (snd (evictLoop now window l sz)) =
    evictLoop now window l sz.
Proof.
  induction l as [| a l IH]; intros sz.
  - reflexivity.
  - rewrite evictLoop_cons. destruct (expired now window a) eqn:Ha.
    + apply IH.
    + cbn [fst snd]. rewrite evictLoop_cons, Ha. reflexivity.
Qed.

(** Nothing is left to evict at [t] once [evict t] is through. *)
Lemma evict_again (t : Time) (w : Watchdog) :
  stateOf (evict t (stateOf (evict t w))) = stateOf (evict t w).
Proof.
  rewrite (evict_eq t (stateOf (evict t w))). rewrite (evict_eq t w).
  cbn [stateOf fst snd setCacheField setListSize cache timeFrame list_ size bufSize].
  rewrite evictLoop_again. reflexivity.
Qed.

(** C6: a tick round is [verify] run on the state [evict] has left, and
    that state has nothing more to evict at the tick time: its list is
    empty or starts within the window.  A push round is [verify] run on the
    state that already holds the pushed timestamp at the tail of the list
    and the counter raised by one.  So a push that brings the counter to
    the threshold raises the alert in its own round, and a tick that
    empties the cache of an alerting watchdog sends the recovery in its
    own round. *)
Theorem C6_evict_and_push_precede_check (now : Time) (w : Watchdog) :
  (forall t,
      selectCase now (TickerC t) w =
        (true,
         stateOf (verify now (stateOf (evict t w))),
         effectsOf (verify now (stateOf (evict t w)))) /\
      stateOf (evict t (stateOf (evict t w))) = stateOf (evict t w) /\
      (forall e rest, list_ (cache (stateOf (evict t w))) = e :: rest ->
                      Sub t e <= timeFrame w) /\
      (alert w = true ->
       Forall (fun e => Sub t e > timeFrame w) (list_ (cache w)) ->
       list_ (cache (stateOf (selectCase now (TickerC t) w))) = [] /\
       alert (stateOf (selectCase now (TickerC t) w)) = false /\
       alertsOf (effectsOf (selectCase now (TickerC t) w)) =
         [buildAlertMsg (stateOf (selectCase now (TickerC t) w)) true now])) /\
  (forall p,
      list_ (cache (stateOf (incrSize (stateOf (pushBack p w))))) = list_ (cache w) ++ [p] /\
      size (cache (stateOf (incrSize (stateOf (pushBack p w))))) =
        wrapUint (size (cache w) + 1) /\
      selectCase now (CachePush p) w =
        (true,
         stateOf (verify now (stateOf (incrSize (stateOf (pushBack p w))))),
         effectsOf (verify now (stateOf (incrSize (stateOf (pushBack p w)))))) /\
      (alert w = false ->
       wrapUint (size (cache w) + 1) >= threshold w ->
       alert (stateOf (selectCase now (CachePush p) w)) = true /\
       alertsOf (effectsOf (selectCase now (CachePush p) w)) =
         [{| recovery := false;
             body := Sprintf defAlertFormat
                       [ArgInt (toInt (wrapUint (size (cache w) + 1)));
                        ArgString (Format now defTimeLayout)];
             timestamp := zeroTime |}])).
Proof.
  split.
  - intros t. split; [apply selectCase_tick | split; [apply evict_again | split]].
    + destruct (evict_split t w) as (removed & _ & _ & Hhead). exact Hhead.
    + intros Ha Hall.
      assert (Hempty : list_ (cache (stateOf (evict t w))) = []).
      { destruct (list_ (cache (stateOf (evict t w)))) as [| e rest] eqn:Hl;
          [reflexivity | exfalso].
        destruct (evict_split t w) as (removed & Hsplit & _ & Hhead).
        specialize (Hhead e rest Hl).
        rewrite Forall_forall in Hall.
        assert (Hin : In e (list_ (cache w))).
        { rewrite Hsplit, Hl. apply in_or_app. right. left. reflexivity. }
        specialize (Hall e Hin). lia. }
      assert (Halert : alert (stateOf (evict t w)) = true)
        by (rewrite evict_eq; exact Ha).
      rewrite selectCase_tick. cbn [stateOf effectsOf fst snd].
      rewrite verify_cache. split; [exact Hempty |].
      rewrite verify_eq, (proj2 (Len_zero_empty _) Hempty), Halert.
      cbn [stateOf effectsOf fst snd alertsOf setAlertField alert]. auto.
  - intros p. split; [reflexivity | split; [reflexivity | split]].
    + apply selectCase_push.
    + intros Ha Hsz. rewrite selectCase_push.
      assert (Hc := pushed_cache p w).
      assert (Ht : threshold (stateOf (incrSize (stateOf (pushBack p w)))) = threshold w)
        by reflexivity.
      assert (Hal : alert (stateOf (incrSize (stateOf (pushBack p w)))) = alert w)
        by reflexivity.
      set (w1 := stateOf (incrSize (stateOf (pushBack p w)))) in *.
      assert (Hne : (Len (list_ (cache w1)) <=? 0) = false).
      { apply Len_pos_nonempty. rewrite Hc. cbn [list_].
        destruct (list_ (cache w)); discriminate. }
      rewrite verify_eq, Hne, Ht, Hal, Ha, Hc. cbn [size].
      rewrite (proj2 (geb_true _ _) Hsz).
      cbn [stateOf effectsOf fst snd alertsOf setAlertField alert].
      split; [reflexivity |].
      unfold buildAlertMsg, Hits. cbn [cache setAlertField]. rewrite Hc.
      reflexivity.
Qed.

(** ** Shutdown *)

Lemma alertsOf_app (o1 o2 : list Effect) :
  alertsOf (o1 ++ o2) = alertsOf o1 ++ alertsOf o2.
Proof.
  induction o1 as [| e o1 IH]; [reflexivity |].
  destruct e; cbn [app alertsOf]; rewrite IH; reflexivity.
Qed.

Lemma watchdogLoop_cons_effects (now : Time) (ev : Event) (rest : list (Time * Event))
  (w : Watchdog) :
  ev <> SyncChan ->
  effectsOf (watchdogLoop ((now, ev) :: rest) w) =
  effectsOf (selectCase now ev w) ++
  effectsOf (watchdogLoop rest (stateOf (selectCase now ev w))).
Proof.
  intros Hev. rewrite watchdogLoop_cons, selectCase_value.
  destruct ev; [congruence | reflexivity | reflexivity].
Qed.

(** A shutdown after any run of ticks and pushes adds no message to those
    the run has sent and leaves the state the run has reached. *)
Lemma watchdogLoop_shutdown_after (evs : list (Time * Event)) :
  forall now rest w,
    Forall (fun e => snd e <> SyncChan) evs ->
    stateOf (watchdogLoop (evs ++ (now, SyncChan) :: rest) w) =
      stateOf (watchdogLoop evs w) /\
    alertsOf (effectsOf (watchdogLoop (evs ++ (now, SyncChan) :: rest) w)) =
      alertsOf (effectsOf (watchdogLoop evs w)).
Proof.
  induction evs as [| [n ev] evs IH]; intros now rest w Hall.
  - split; reflexivity.
  - inversion Hall as [| ? ? Hev Hall']; subst. cbn [snd] in Hev.
    destruct (IH now rest (stateOf (selectCase n ev w)) Hall') as (Hs1 & Ho1).
    cbn [app].
    rewrite !watchdogLoop_cons_state, !watchdogLoop_cons_effects by exact Hev.
    rewrite !alertsOf_app, Hs1, Ho1. split; reflexivity.
Qed.

(** C7: in any state, alerting or not, the shutdown case stops the ticker,
    writes its log line and leaves the loop: no message goes to
    [alertChan], the cache and the flag are as before, and the events that
    would have followed are not served.  So a shutdown that comes after any
    run of ticks and pushes leaves the state that run has reached and adds
    no message to those it has sent. *)
Theorem C7_shutdown_sends_no_message (now : Time) (w : Watchdog) (rest : list (Time * Event)) :
  selectCase now SyncChan w =
    (false, w, [TickerStop; LogInfo "Watchdog terminating."]) /\
  alertsOf (effectsOf (selectCase now SyncChan w)) = [] /\
  watchdogLoop ((now, SyncChan) :: rest) w =
    (tt, w, [TickerStop; LogInfo "Watchdog terminating."]) /\
  (forall evs,
      Forall (fun e => snd e <> SyncChan) evs ->
      stateOf (watchdogLoop (evs ++ (now, SyncChan) :: rest) w) =
        stateOf (watchdogLoop evs w) /\
      alertsOf (effectsOf (watchdogLoop (evs ++ (now, SyncChan) :: rest) w)) =
        alertsOf (effectsOf (watchdogLoop evs w))).
Proof.
  split; [reflexivity | split; [reflexivity | split; [reflexivity |]]].
  intros evs Hall. apply watchdogLoop_shutdown_after. exact Hall.
Qed.

(** ** Construction *)

(** With a tick period that is not positive the goroutine panics when it
    makes its ticker, before it serves any event. *)
Lemma watchdogRoutine_bad_tick (p : Parameters) (evs : list (Time * Event)) :
  WatchdogTick p <= 0 -> watchdogRoutine evs (newDog p) = None.
Proof.
  intros Htick. unfold watchdogRoutine. cbn [newDog tick].
  destruct (Z.leb_spec (WatchdogTick p) 0); [reflexivity | lia].
Qed.





(** ** Further properties of the engine *)

Lemma Sub_monotone (t1 t2 e : Time) : t1 <= t2 -> Sub t1 e <= Sub t2 e.
Proof. unfold Sub. lia. Qed.

(** After [verify] the flag is what the cache calls for, whatever it was
    before. *)
Lemma verify_flag (now : Time) (w : Watchdog) :
  alert (stateOf (verify now w)) = callsForAlert (cache w) (threshold w).
Proof.
  rewrite verify_eq. unfold callsForAlert.
  destruct (Len (list_ (cache w)) <=? 0);
    [| destruct (size (cache w) >=? threshold w)];
    destruct (alert w) eqn:Ha; cbn [stateOf fst snd setAlertField alert negb andb];
    try reflexivity; exact Ha.
Qed.

Lemma verify_threshold (now : Time) (w : Watchdog) :
  threshold (stateOf (verify now w)) = threshold w.
Proof. rewrite verify_state. reflexivity. Qed.

Lemma callsForAlert_spec (c : hitCache) (limit : Z) :
  callsForAlert c limit = true <-> list_ c <> [] /\ size c >= limit.
Proof.
  unfold callsForAlert. rewrite andb_true_iff, negb_true_iff.
  rewrite Len_pos_nonempty, geb_true. reflexivity.
Qed.

(** X1: after every tick round and every push round the flag is set
    exactly when the cache is not empty and its counter has reached the
    threshold; the flag the round started with plays no part. *)
Theorem round_flag_follows_cache (now : Time) (ev : Event) (w : Watchdog) :
  ev <> SyncChan ->
  (alert (stateOf (selectCase now ev w)) = true <->
   list_ (cache (stateOf (selectCase now ev w))) <> [] /\
   size (cache (stateOf (selectCase now ev w))) >=
     threshold (stateOf (selectCase now ev w))) /\
  alert (stateOf (selectCase now ev w)) =
    alert (stateOf (selectCase now ev (setAlertField (negb (alert w)) w))).
Proof.
  intros Hev. destruct ev as [| t | p]; [congruence | |].
  - rewrite !selectCase_tick. cbn [stateOf fst snd].
    rewrite !verify_flag, verify_cache, verify_threshold. split.
    + apply callsForAlert_spec.
    + rewrite !evict_eq. reflexivity.
  - rewrite !selectCase_push. cbn [stateOf fst snd].
    rewrite !verify_flag, verify_cache, verify_threshold. split.
    + apply callsForAlert_spec.
    + reflexivity.
Qed.

(** X2: a second [verify] straight after a first one sends nothing and
    changes nothing, at whatever time it runs. *)
Theorem verify_again_is_silent (now1 now2 : Time) (w : Watchdog) :
  verify now2 (stateOf (verify now1 w)) = (tt, stateOf (verify now1 w), []).
Proof.
  assert (Hflag := verify_flag now1 w).
  assert (Hcache := verify_cache now1 w).
  assert (Hlimit := verify_threshold now1 w).
  set (w1 := stateOf (verify now1 w)) in *.
  rewrite verify_eq, Hcache, Hlimit, Hflag. unfold callsForAlert.
  destruct (Len (list_ (cache w)) <=? 0);
    [| destruct (size (cache w) >=? threshold w)]; reflexivity.
Qed.

(** What one round sends: nothing, the flag staying, or one message of the
    kind the old flag tells (a recovery when it was set), the flag
    turning. *)
Lemma verify_kinds (now : Time) (w : Watchdog) :
  (alertsOf (effectsOf (verify now w)) = [] /\
   alert (stateOf (verify now w)) = alert w) \/
  (exists m, alertsOf (effectsOf (verify now w)) = [m] /\
             recovery m = alert w /\
             alert (stateOf (verify now w)) = negb (alert w)).
Proof.
  rewrite verify_eq.
  destruct (Len (list_ (cache w)) <=? 0);
    [| destruct (size (cache w) >=? threshold w)];
    destruct (alert w) eqn:Ha;
    cbn [stateOf effectsOf fst snd alertsOf setAlertField alert negb];
    solve [left; split; [reflexivity | exact Ha]
          | right; eexists; split; [reflexivity | split; reflexivity]].
Qed.

Lemma selectCase_kinds (now : Time) (ev : Event) (w : Watchdog) :
  (alertsOf (effectsOf (selectCase now ev w)) = [] /\
   alert (stateOf (selectCase now ev w)) = alert w) \/
  (exists m, alertsOf (effectsOf (selectCase now ev w)) = [m] /\
             recovery m = alert w /\
             alert (stateOf (selectCase now ev w)) = negb (alert w)).
Proof.
  destruct ev as [| t | p].
  - left. split; reflexivity.
  - rewrite selectCase_tick. cbn [stateOf effectsOf fst snd].
    assert (Ha : alert (stateOf (evict t w)) = alert w)
      by (rewrite evict_eq; reflexivity).
    rewrite <- Ha. apply verify_kinds.
  - rewrite selectCase_push. cbn [stateOf effectsOf fst snd].
    apply (verify_kinds now (stateOf (incrSize (stateOf (pushBack p w))))).
Qed.

Lemma watchdogLoop_cons_sync (now : Time) (rest : list (Time * Event)) (w : Watchdog) :
  watchdogLoop ((now, SyncChan) :: rest) w =
  (tt, w, [TickerStop; LogInfo "Watchdog terminating."]).
Proof. reflexivity. Qed.

(** X3: over any run of the loop from any state the messages sent
    alternate in kind, the first being an alert if the flag was down and a
    recovery if it was up; the flag at the end has turned once for each
    message. *)
Theorem messages_alternate (evs : list (Time * Event)) :
  forall w,
    alternates (alert w) (alertsOf (effectsOf (watchdogLoop evs w))) = true /\
    alert (stateOf (watchdogLoop evs w)) =
      xorb (alert w) (Nat.odd (List.length (alertsOf (effectsOf (watchdogLoop evs w))))).
Proof.
  induction evs as [| [now ev] evs IH]; intros w.
  - cbn. rewrite xorb_false_r. split; reflexivity.
  - destruct ev as [| t | p].
    + rewrite watchdogLoop_cons_sync. cbn. rewrite xorb_false_r. split; reflexivity.
    + rewrite watchdogLoop_cons_state, watchdogLoop_cons_effects by discriminate.
      rewrite alertsOf_app.
      destruct (IH (stateOf (selectCase now (TickerC t) w))) as (Halt & Hflag).
      destruct (selectCase_kinds now (TickerC t) w) as [(Hout & Ha) | (m & Hout & Hm & Ha)];
        rewrite Hout; rewrite Ha in Halt, Hflag.
      * cbn [app]. split; assumption.
      * cbn [app alternates List.length]. rewrite Hm, eqb_reflx, Halt, Hflag.
        rewrite Nat.odd_succ, <- Nat.negb_odd.
        split; [reflexivity |]. destruct (alert w), (Nat.odd _); reflexivity.
    + rewrite watchdogLoop_cons_state, watchdogLoop_cons_effects by discriminate.
      rewrite alertsOf_app.
      destruct (IH (stateOf (selectCase now (CachePush p) w))) as (Halt & Hflag).
      destruct (selectCase_kinds now (CachePush p) w) as [(Hout & Ha) | (m & Hout & Hm & Ha)];
        rewrite Hout; rewrite Ha in Halt, Hflag.
      * cbn [app]. split; assumption.
      * cbn [app alternates List.length]. rewrite Hm, eqb_reflx, Halt, Hflag.
        rewrite Nat.odd_succ, <- Nat.negb_odd.
        split; [reflexivity |]. destruct (alert w), (Nat.odd _); reflexivity.
Qed.

(** X4: a run sends at most one message for each event it is given. *)
Theorem at_most_one_message_per_event (evs : list (Time * Event)) :
  forall w,
    (List.length (alertsOf (effectsOf (watchdogLoop evs w))) <= List.length evs)%nat.
Proof.
  induction evs as [| [now ev] evs IH]; intros w.
  - cbn. lia.
  - destruct ev as [| t | p].
    + rewrite watchdogLoop_cons_sync. cbn. lia.
    + rewrite watchdogLoop_cons_effects by discriminate.
      rewrite alertsOf_app, length_app.
      specialize (IH (stateOf (selectCase now (TickerC t) w))).
      destruct (selectCase_kinds now (TickerC t) w) as [(Hout & _) | (m & Hout & _)];
        rewrite Hout; cbn [List.length]; lia.
    + rewrite watchdogLoop_cons_effects by discriminate.
      rewrite alertsOf_app, length_app.
      specialize (IH (stateOf (selectCase now (CachePush p) w))).
      destruct (selectCase_kinds now (CachePush p) w) as [(Hout & _) | (m & Hout & _)];
        rewrite Hout; cbn [List.length]; lia.
Qed.

Lemma expired_later (t1 t2 : Time) (window : Duration) (e : Time) :
  t1 <= t2 -> expired t1 window e = true -> expired t2 window e = true.
Proof.
  intros Hle H1. apply expired_spec in H1. apply expired_spec.
  pose proof (Sub_monotone t1 t2 e Hle). lia.
Qed.

Lemma evictLoop_later (t1 t2 : Time) (window : Duration) (l : list Time) :
  t1 <= t2 ->
  forall sz,
    evictLoop t2 window (fst (evictLoop t1 window l sz)) (snd (evictLoop t1 window l sz)) =
    evictLoop t2 window l sz.
Proof.
  intros Hle. induction l as [| a l IH]; intros sz.
  - reflexivity.
  - rewrite (evictLoop_cons t1). destruct (expired t1 window a) eqn:H1.
    + rewrite (evictLoop_cons t2), (expired_later t1 t2 window a Hle H1). apply IH.
    + reflexivity.
Qed.

(** X5: an eviction at a later time makes an earlier one redundant:
    evicting at [t1] and then at [t2], with [t1 <= t2], leaves the state
    that evicting at [t2] alone leaves, on any cache contents. *)
Theorem evict_later_absorbs_earlier (t1 t2 : Time) (w : Watchdog) :
  t1 <= t2 ->
  stateOf (evict t2 (stateOf (evict t1 w))) = stateOf (evict t2 w).
Proof.
  intros Hle. rewrite (evict_eq t2 (stateOf (evict t1 w))), (evict_eq t1 w), (evict_eq t2 w).
  cbn [stateOf fst snd setCacheField setListSize cache timeFrame list_ size bufSize
       tick threshold alert].
  rewrite (evictLoop_later t1 t2 (timeFrame w) (list_ (cache w)) Hle). reflexivity.
Qed.

(** The list after a round, in terms of the list before it. *)
Lemma selectCase_list (now : Time) (ev : Event) (w : Watchdog) :
  exists removed,
    list_ (cache w) ++ servedPushes [(now, ev)] =
    removed ++ list_ (cache (stateOf (selectCase now ev w))).
Proof.
  rewrite selectCase_cache. destruct ev as [| t | p]; cbn [servedPushes].
  - exists []. apply app_nil_r.
  - destruct (evict_split t w) as (removed & Hsplit & _).
    exists removed. rewrite app_nil_r. exact Hsplit.
  - exists []. reflexivity.
Qed.

Lemma watchdogLoop_list (evs : list (Time * Event)) :
  forall w, exists removed,
    list_ (cache w) ++ servedPushes evs =
    removed ++ list_ (cache (stateOf (watchdogLoop evs w))).
Proof.
  induction evs as [| [now ev] evs IH]; intros w.
  - exists []. cbn. apply app_nil_r.
  - destruct ev as [| t | p].
    + exists []. cbn. apply app_nil_r.
    + rewrite watchdogLoop_cons_state by discriminate. cbn [servedPushes].
      destruct (selectCase_list now (TickerC t) w) as (r1 & H1).
      destruct (IH (stateOf (selectCase now (TickerC t) w))) as (r2 & H2).
      cbn [servedPushes] in H1. rewrite app_nil_r in H1.
      exists (r1 ++ r2). rewrite H1, <- !app_assoc, H2. reflexivity.
    + rewrite watchdogLoop_cons_state by discriminate. cbn [servedPushes].
      destruct (selectCase_list now (CachePush p) w) as (r1 & H1).
      destruct (IH (stateOf (selectCase now (CachePush p) w))) as (r2 & H2).
      cbn [servedPushes] in H1.
      exists (r1 ++ r2).
      change (p :: servedPushes evs) with ([p] ++ servedPushes evs).
      rewrite app_assoc, H1, <- !app_assoc, H2. reflexivity.
Qed.

(** X6: the cache is a queue.  After any run of the loop from a new
    watchdog the list holds, in arrival order, the timestamps of the pushes
    served, less a head segment; a push that follows the shutdown is not
    among them. *)
Theorem cache_is_tail_of_served_pushes (p : Parameters) (evs : list (Time * Event)) :
  exists removed,
    servedPushes evs =
    removed ++ list_ (cache (stateOf (watchdogLoop evs (newDog p)))).
Proof.
  destruct (watchdogLoop_list evs (newDog p)) as (removed & H).
  exists removed. exact H.
Qed.

Lemma watchdogLoop_timeFrame (evs : list (Time * Event)) :
  forall w, timeFrame (stateOf (watchdogLoop evs w)) = timeFrame w.
Proof.
  induction evs as [| [now ev] evs IH]; intros w.
  - reflexivity.
  - destruct ev as [| t | p]; [reflexivity | |];
      rewrite watchdogLoop_cons_state by discriminate;
      rewrite IH; apply selectCase_timeFrame.
Qed.

Lemma StronglySorted_app_r (l1 l2 : list Time) :
  StronglySorted Z.le (l1 ++ l2) -> StronglySorted Z.le l2.
Proof.
  induction l1 as [| a l1 IH]; intros Hs; [exact Hs |].
  inversion Hs; subst. apply IH. assumption.
Qed.

(** X7: when the pushes served come in weakly increasing time order, a
    tick leaves no stale hit behind: after a run that ends with a tick at
    [t], every timestamp in the cache is within the window at [t]. *)
Theorem tick_leaves_only_hits_in_window
  (p : Parameters) (evs : list (Time * Event)) (now t : Time) :
  Sorted Z.le (servedPushes evs) ->
  Forall (fun e => snd e <> SyncChan) evs ->
  Forall (fun e => Sub t e <= AlertSpan p)
    (list_ (cache (stateOf (watchdogLoop (evs ++ [(now, TickerC t)]) (newDog p))))).
Proof.
  intros Hsorted Hall.
  assert (Hrun : forall w,
             stateOf (watchdogLoop (evs ++ [(now, TickerC t)]) w) =
             stateOf (selectCase now (TickerC t) (stateOf (watchdogLoop evs w)))).
  { clear Hsorted. induction evs as [| [n ev] evs IH]; intros w.
    - cbn [app]. rewrite watchdogLoop_cons_state by discriminate. reflexivity.
    - inversion Hall as [| ? ? Hev Hall']; subst. cbn [snd] in Hev. cbn [app].
      rewrite !watchdogLoop_cons_state by exact Hev. apply IH. exact Hall'. }
  rewrite Hrun, selectCase_cache, evict_list, watchdogLoop_timeFrame.
  cbn [newDog timeFrame].
  destruct (watchdogLoop_list evs (newDog p)) as (removed & Hl).
  cbn [newDog cache list_ app] in Hl.
  rewrite evictLoop_sorted.
  - apply Forall_forall. intros e He. apply filter_In in He as [_ He].
    now apply inWindow_spec.
  - apply (StronglySorted_app_r removed). rewrite <- Hl.
    apply Sorted_StronglySorted; [| exact Hsorted].
    intros x y z. apply Z.le_trans.
Qed.

Lemma selectCase_config (now : Time) (ev : Event) (w : Watchdog) :
  bufSize (cache (stateOf (selectCase now ev w))) = bufSize (cache w) /\
  tick (stateOf (selectCase now ev w)) = tick w /\
  threshold (stateOf (selectCase now ev w)) = threshold w.
Proof.
  destruct ev as [| t | p].
  - repeat split.
  - rewrite selectCase_tick. cbn [stateOf fst snd].
    rewrite verify_state, evict_eq. repeat split.
  - rewrite selectCase_push. cbn [stateOf fst snd].
    rewrite verify_state. repeat split.
Qed.

Lemma watchdogLoop_config (evs : list (Time * Event)) :
  forall w,
    timeFrame (stateOf (watchdogLoop evs w)) = timeFrame w /\
    tick (stateOf (watchdogLoop evs w)) = tick w /\
    threshold (stateOf (watchdogLoop evs w)) = threshold w /\
    bufSize (cache (stateOf (watchdogLoop evs w))) = bufSize (cache w).
Proof.
  induction evs as [| [now ev] evs IH]; intros w.
  - repeat split.
  - assert (Hstep : ev <> SyncChan ->
                    stateOf (watchdogLoop ((now, ev) :: evs) w) =
                    stateOf (watchdogLoop evs (stateOf (selectCase now ev w))))
      by apply watchdogLoop_cons_state.
    destruct (IH (stateOf (selectCase now ev w))) as (H1 & H2 & H3 & H4).
    destruct (selectCase_config now ev w) as (C1 & C2 & C3).
    assert (C0 := selectCase_timeFrame now ev w).
    destruct ev as [| t | q]; [repeat split | |];
      rewrite Hstep by discriminate; rewrite H1, H2, H3, H4, C0, C1, C2, C3;
      repeat split.
Qed.

(** X8: the configuration is fixed at construction: no run of the loop
    changes the window, the tick period, the threshold or the buffer size
    the watchdog was built with. *)
Theorem configuration_is_never_changed (p : Parameters) (evs : list (Time * Event)) :
  timeFrame (stateOf (watchdogLoop evs (newDog p))) = AlertSpan p /\
  tick (stateOf (watchdogLoop evs (newDog p))) = WatchdogTick p /\
  threshold (stateOf (watchdogLoop evs (newDog p))) = AlertThreshold p /\
  bufSize (cache (stateOf (watchdogLoop evs (newDog p)))) = WatchdogBufSize p.
Proof.
  apply (watchdogLoop_config evs (newDog p)).
Qed.

(** X9: the rule the watchdog implements.  After pushes of weakly
    increasing timestamps into a new watchdog, a tick at [t] leaves it
    alerting exactly when the number of pushed timestamps within the window
    at [t] is positive and at least the threshold.  The number of pushes
    is one a Go [int] can hold. *)
Theorem alerting_iff_window_count_reaches_threshold
  (p : Parameters) (hits : list (Time * Time)) (now t : Time) :
  Sorted Z.le (map snd hits) ->
  Len (map snd hits) <= maxInt ->
  (alert (stateOf (selectCase now (TickerC t)
                     (stateOf (watchdogLoop (pushEvents hits) (newDog p))))) = true <->
   0 < countInWindow t (AlertSpan p) (map snd hits) /\
   AlertThreshold p <= countInWindow t (AlertSpan p) (map snd hits)).
Proof.
  intros Hsorted Hfit.
  destruct (watchdogLoop_pushes hits (newDog p)) as (Hl & Hs & Hf); [reflexivity |].
  destruct (watchdogLoop_config (pushEvents hits) (newDog p)) as (_ & _ & Hth & _).
  set (pushed := stateOf (watchdogLoop (pushEvents hits) (newDog p))) in *.
  cbn [newDog cache list_ size timeFrame threshold app] in Hl, Hs, Hf, Hth.
  pose proof (Len_nonneg (map snd hits)) as Hnn.
  pose proof maxInt_lt_maxUint as Hmm.
  rewrite Z.add_0_l, wrapUint_small in Hs by lia.
  assert (Hagree : sizeAgrees pushed) by (unfold sizeAgrees; congruence).
  assert (Hlist : list_ (cache (stateOf (evict t pushed))) =
                  filter (inWindow t (AlertSpan p)) (map snd hits)).
  { rewrite evict_list, Hf, Hl. apply evictLoop_sorted.
    apply Sorted_StronglySorted; [| exact Hsorted]. intros x y z. apply Z.le_trans. }
  assert (Hsize : size (cache (stateOf (evict t pushed))) =
                  countInWindow t (AlertSpan p) (map snd hits)).
  { assert (Ha : sizeAgrees (stateOf (evict t pushed)))
      by (apply evict_sizeAgrees; [exact Hagree | rewrite Hl; lia]).
    unfold sizeAgrees in Ha. rewrite Ha, Hlist. reflexivity. }
  rewrite selectCase_tick. cbn [stateOf fst snd].
  rewrite verify_flag, callsForAlert_spec, Hsize.
  assert (Hlimit : threshold (stateOf (evict t pushed)) = AlertThreshold p)
    by (rewrite evict_eq; exact Hth).
  rewrite Hlimit.
  assert (Hne : list_ (cache (stateOf (evict t pushed))) <> [] <->
                0 < countInWindow t (AlertSpan p) (map snd hits)).
  { unfold countInWindow. rewrite Hlist.
    destruct (filter (inWindow t (AlertSpan p)) (map snd hits)); cbn [List.length].
    - split; [congruence | lia].
    - split; [lia | discriminate]. }
  rewrite Hne. lia.
Qed.

End Watchdog.

(** ** The model at the demo formats *)

Abbreviation demoVerify :=
  (verify demoAlertFormat demoRecoveryFormat demoTimeLayout sprintfVerbs formatNanos).
Abbreviation demoSelectCase :=
  (selectCase demoAlertFormat demoRecoveryFormat demoTimeLayout sprintfVerbs formatNanos).
Abbreviation demoLoop :=
  (watchdogLoop demoAlertFormat demoRecoveryFormat demoTimeLayout sprintfVerbs formatNanos).
Abbreviation demoBuildAlertMsg :=
  (buildAlertMsg demoAlertFormat demoRecoveryFormat demoTimeLayout sprintfVerbs formatNanos).

(** Plain text in front of a format is copied. *)
Lemma sprintfVerbs_plain (pre : string) :
  forall rest args,
    plainText pre = true ->
    sprintfVerbs (pre ++ rest) args = (pre ++ sprintfVerbs rest args)%string.
Proof.
  induction pre as [| c pre IH]; intros rest args Hplain.
  - reflexivity.
  - cbn [plainText] in Hplain. apply andb_true_iff in Hplain as [Hc Hpre].
    apply negb_true_iff in Hc.
    cbn [String.append sprintfVerbs]. rewrite Hc, IH by exact Hpre.
    destruct (pre ++ rest)%string; reflexivity.
Qed.

Lemma sprintfVerbs_plain_end (post : string) (args : list FmtArg) :
  plainText post = true -> sprintfVerbs post args = post.
Proof.
  induction post as [| c post IH]; intros Hplain.
  - reflexivity.
  - cbn [plainText] in Hplain. apply andb_true_iff in Hplain as [Hc Hpost].
    apply negb_true_iff in Hc.
    cbn [sprintfVerbs]. rewrite Hc, IH by exact Hpost.
    destruct post; reflexivity.
Qed.

(** Under [sprintfVerbs], an alert format made of plain text around one
    [%d] and one [%s] gives a body that spells the hit count in decimal and
    the formatted time, in the places of the two verbs. *)
Lemma sprintfVerbs_alert_body (pre mid post : string) (hits : Z) (at_ : string) :
  plainText pre = true -> plainText mid = true -> plainText post = true ->
  sprintfVerbs (pre ++ "%d" ++ mid ++ "%s" ++ post) [ArgInt hits; ArgString at_] =
  (pre ++ decimal hits ++ mid ++ at_ ++ post)%string.
Proof.
  intros Hpre Hmid Hpost.
  rewrite sprintfVerbs_plain by exact Hpre. f_equal.
  cbn [String.append sprintfVerbs Ascii.eqb Bool.eqb isVerb orb renderArg]. f_equal.
  rewrite sprintfVerbs_plain by exact Hmid. f_equal.
  cbn [String.append sprintfVerbs Ascii.eqb Bool.eqb isVerb orb renderArg]. f_equal.
  apply sprintfVerbs_plain_end. exact Hpost.
Qed.

(** Under [sprintfVerbs], a recovery format made of plain text around one
    [%s] gives a body that holds the formatted time and no number of its
    own. *)
Lemma sprintfVerbs_recovery_body (pre post : string) (at_ : string) :
  plainText pre = true -> plainText post = true ->
  sprintfVerbs (pre ++ "%s" ++ post) [ArgString at_] = (pre ++ at_ ++ post)%string.
Proof.
  intros Hpre Hpost.
  rewrite sprintfVerbs_plain by exact Hpre. f_equal.
  cbn [String.append sprintfVerbs Ascii.eqb Bool.eqb isVerb orb renderArg]. f_equal.
  apply sprintfVerbs_plain_end. exact Hpost.
Qed.

(** ** Runs of the model *)

(** Threshold 3, window 120 s: three pushes one second apart raise the
    alert once, at the third push, and the body reports 3 hits. *)
Example threshold_crossing_run :
  alertsOf (effectsOf (demoLoop (pushEvents demoHits) (newDog demoParameters))) =
    [{| recovery := false;
        body := "High traffic generated an alert - hits = 3, triggered at 12000000000ns";
        timestamp := 0 |}] /\
  alert (stateOf (demoLoop (pushEvents demoHits) (newDog demoParameters))) = true.
Proof. split; reflexivity. Qed.

(** From there a tick past the window of the last hit drains the cache and
    sends one recovery; ticks before it, with the three hits still in the
    window, send nothing. *)
Example recovery_run :
  let evs := pushEvents demoHits ++
             [(13 * second, TickerC (13 * second));
              (14 * second, TickerC (14 * second));
              (135 * second, TickerC (135 * second))] in
  alertsOf (effectsOf (demoLoop evs (newDog demoParameters))) =
    [{| recovery := false;
        body := "High traffic generated an alert - hits = 3, triggered at 12000000000ns";
        timestamp := 0 |};
     {| recovery := true;
        body := "Recovered from high traffic at 135000000000ns";
        timestamp := 0 |}] /\
  list_ (cache (stateOf (demoLoop evs (newDog demoParameters)))) = [] /\
  size (cache (stateOf (demoLoop evs (newDog demoParameters)))) = 0 /\
  alert (stateOf (demoLoop evs (newDog demoParameters))) = false.
Proof. repeat split. Qed.

(** Out of time order, an expired hit behind a hit within the window
    stays in the cache. *)
Example evict_unordered_run :
  list_ (cache (stateOf (evict 200 unorderedDog))) = [100; 5] /\
  size (cache (stateOf (evict 200 unorderedDog))) = 2 /\
  Sub 200 5 > timeFrame unorderedDog.
Proof. repeat split. Qed.

(** At the two ends of its range [Sub] saturates. *)
Example Sub_saturates :
  Sub (2 ^ 64) 0 = maxDuration /\ Sub 0 (2 ^ 64) = minDuration.
Proof. split; reflexivity. Qed.

(** ** The theorems at concrete inputs *)

Lemma C1_witness_three_hits :
  Sorted Z.le (map snd demoHits) /\
  Len (map snd demoHits) <= maxInt /\
  size (cache (stateOf (evict (131 * second)
          (stateOf (demoLoop (pushEvents demoHits) (newDog demoParameters)))))) = 2 /\
  countInWindow (131 * second) (AlertSpan demoParameters) (map snd demoHits) = 2.
Proof.
  assert (Hsorted : Sorted Z.le (map snd demoHits)).
  { repeat constructor; vm_compute; discriminate. }
  assert (Hfit : Len (map snd demoHits) <= maxInt).
  { vm_compute; discriminate. }
  split; [exact Hsorted | split; [exact Hfit | split; [| reflexivity]]].
  exact (proj1 (C1_evict_size_counts_hits_in_window
                  demoAlertFormat demoRecoveryFormat demoTimeLayout sprintfVerbs formatNanos
                  demoParameters demoHits (131 * second) Hsorted Hfit)).
Defined.

Lemma C2_witness_quiet_full :
  alert quietFullDog = false /\
  list_ (cache quietFullDog) <> [] /\
  size (cache quietFullDog) >= threshold quietFullDog /\
  alert (stateOf (demoVerify (12 * second) quietFullDog)) = true /\
  effectsOf (demoVerify (12 * second) quietFullDog) =
    [SendAlert
       {| recovery := false;
          body := "High traffic generated an alert - hits = 3, triggered at 12000000000ns";
          timestamp := 0 |}].
Proof.
  assert (Ha : alert quietFullDog = false) by reflexivity.
  assert (Hne : list_ (cache quietFullDog) <> []) by discriminate.
  assert (Hsz : size (cache quietFullDog) >= threshold quietFullDog)
    by (vm_compute; discriminate).
  pose proof (C2_verify_raises_alert
                demoAlertFormat demoRecoveryFormat demoTimeLayout sprintfVerbs formatNanos
                (12 * second) quietFullDog Ha Hne Hsz) as (Hflag & _ & Hout).
  split; [exact Ha | split; [exact Hne | split; [exact Hsz | split]]].
  - exact Hflag.
  - exact Hout.
Defined.

Lemma C3_witness_alerting_low :
  alert alertingLowDog = true /\
  size (cache alertingLowDog) < threshold alertingLowDog /\
  alert (stateOf (demoVerify (14 * second) alertingLowDog)) = false /\
  effectsOf (demoVerify (14 * second) alertingLowDog) =
    [SendAlert
       {| recovery := true;
          body := "Recovered from high traffic at 14000000000ns";
          timestamp := 0 |}].
Proof.
  assert (Ha : alert alertingLowDog = true) by reflexivity.
  assert (Hlt : size (cache alertingLowDog) < threshold alertingLowDog) by reflexivity.
  pose proof (C3_verify_sends_recovery
                demoAlertFormat demoRecoveryFormat demoTimeLayout sprintfVerbs formatNanos
                (14 * second) alertingLowDog Ha (or_intror Hlt)) as (Hflag & _ & Hout).
  split; [exact Ha | split; [exact Hlt | split]].
  - exact Hflag.
  - exact Hout.
Defined.

Lemma C4_witness_alerting_full :
  alert alertingFullDog = true /\
  list_ (cache alertingFullDog) <> [] /\
  size (cache alertingFullDog) >= threshold alertingFullDog /\
  demoVerify (13 * second) alertingFullDog = (tt, alertingFullDog, []).
Proof.
  assert (Ha : alert alertingFullDog = true) by reflexivity.
  assert (Hne : list_ (cache alertingFullDog) <> []) by discriminate.
  assert (Hsz : size (cache alertingFullDog) >= threshold alertingFullDog)
    by (vm_compute; discriminate).
  split; [exact Ha | split; [exact Hne | split; [exact Hsz |]]].
  apply (C4_verify_message_iff_flip
           demoAlertFormat demoRecoveryFormat demoTimeLayout sprintfVerbs formatNanos
           (13 * second) alertingFullDog).
  left. split; [exact Ha | split; [exact Hne | exact Hsz]].
Defined.

Lemma C5_witness_push_round :
  sizeAgrees quietTwoHitsDog /\
  Len (list_ (cache quietTwoHitsDog)) < maxInt /\
  sizeAgrees (stateOf (demoSelectCase (12 * second) (CachePush (12 * second)) quietTwoHitsDog)) /\
  Hits (stateOf (demoSelectCase (12 * second) (CachePush (12 * second)) quietTwoHitsDog)) = 3.
Proof.
  assert (Hs : sizeAgrees quietTwoHitsDog) by reflexivity.
  assert (Hfit : Len (list_ (cache quietTwoHitsDog)) < maxInt) by reflexivity.
  split; [exact Hs | split; [exact Hfit |]].
  exact (proj1 (proj2 (C5_size_counts_the_list
                  demoAlertFormat demoRecoveryFormat demoTimeLayout sprintfVerbs formatNanos))
               (12 * second) (CachePush (12 * second)) quietTwoHitsDog Hs Hfit).
Defined.

Lemma C6_witness_push_reaches_threshold :
  alert quietTwoHitsDog = false /\
  wrapUint (size (cache quietTwoHitsDog) + 1) >= threshold quietTwoHitsDog /\
  alert (stateOf (demoSelectCase (12 * second) (CachePush (12 * second)) quietTwoHitsDog)) = true /\
  alertsOf (effectsOf (demoSelectCase (12 * second) (CachePush (12 * second)) quietTwoHitsDog)) =
    [{| recovery := false;
        body := "High traffic generated an alert - hits = 3, triggered at 12000000000ns";
        timestamp := 0 |}].
Proof.
  assert (Ha : alert quietTwoHitsDog = false) by reflexivity.
  assert (Hsz : wrapUint (size (cache quietTwoHitsDog) + 1) >= threshold quietTwoHitsDog)
    by (vm_compute; discriminate).
  split; [exact Ha | split; [exact Hsz |]].
  exact (proj2 (proj2 (proj2
           (proj2 (C6_evict_and_push_precede_check
                     demoAlertFormat demoRecoveryFormat demoTimeLayout sprintfVerbs formatNanos
                     (12 * second) quietTwoHitsDog) (12 * second)))) Ha Hsz).
Defined.

Lemma C7_witness_shutdown_while_alerting :
  Forall (fun e => snd e <> SyncChan) [(13 * second, TickerC (13 * second))] /\
  alert (stateOf (demoLoop [(13 * second, TickerC (13 * second));
                            (14 * second, SyncChan);
                            (15 * second, TickerC (300 * second))] alertingFullDog)) = true /\
  alertsOf (effectsOf (demoLoop [(13 * second, TickerC (13 * second));
                                 (14 * second, SyncChan);
                                 (15 * second, TickerC (300 * second))] alertingFullDog)) = [].
Proof.
  assert (Hall : Forall (fun e : Time * Event => snd e <> SyncChan)
                   [(13 * second, TickerC (13 * second))])
    by (repeat constructor; discriminate).
  destruct (proj2 (proj2 (proj2
              (C7_shutdown_sends_no_message
                 demoAlertFormat demoRecoveryFormat demoTimeLayout sprintfVerbs formatNanos
                 (14 * second) alertingFullDog [(15 * second, TickerC (300 * second))])))
              [(13 * second, TickerC (13 * second))] Hall) as (Hstate & Hout).
  split; [exact Hall | split].
  - exact (f_equal alert Hstate).
  - exact Hout.
Defined.

Lemma C10_witness_unordered :
  list_ (cache unorderedDog) = [0] ++ 100 :: [5] /\
  Sub 200 100 <= timeFrame unorderedDog /\
  exists pre', list_ (cache (stateOf (evict 200 unorderedDog))) = pre' ++ 100 :: [5].
Proof.
  assert (Hsplit : list_ (cache unorderedDog) = [0] ++ 100 :: [5]) by reflexivity.
  assert (Hin : Sub 200 100 <= timeFrame unorderedDog) by (vm_compute; discriminate).
  split; [exact Hsplit | split; [exact Hin |]].
  destruct (C10_evict_removes_expired_prefix_only 200 unorderedDog)
    as (removed & _ & _ & _ & Hkeep).
  exact (Hkeep [0] 100 [5] Hsplit Hin).
Defined.

(** ** Where the claims as written fail *)

(** C4 as written: with threshold 0, a push followed by a tick that drains
    the cache brings [verify] a state that is alerting with
    [size() >= threshold] (0 >= 0); [verify] does not leave it alone: the
    cache is empty, so it lowers the flag and sends a recovery. *)
Lemma C4_counterexample_empty_cache_threshold_zero :
  stateOf (evict (200 * second)
     (stateOf (demoLoop [(10 * second, CachePush (10 * second))]
                 (newDog zeroThresholdParameters)))) = alertingEmptyDog /\
  matchesThreshold alertingEmptyDog /\
  alert alertingEmptyDog = true /\
  size (cache alertingEmptyDog) >= threshold alertingEmptyDog /\
  demoVerify (200 * second) alertingEmptyDog <> (tt, alertingEmptyDog, []) /\
  alert (stateOf (demoVerify (200 * second) alertingEmptyDog)) = false /\
  alertsOf (effectsOf (demoVerify (200 * second) alertingEmptyDog)) =
    [{| recovery := true;
        body := "Recovered from high traffic at 200000000000ns";
        timestamp := 0 |}].
Proof.
  split; [reflexivity |].
  split; [left; split; [reflexivity | vm_compute; discriminate] |].
  split; [reflexivity |].
  split; [vm_compute; discriminate |].
  split; [discriminate |].
  split; reflexivity.
Qed.



(** An oversized buffer: the construction panics. *)
Example NewWatchdog_oversized_buffer :
  NewWatchdog demoChanCap
    {| WatchdogBufSize := 2 ^ 63; AlertSpan := 120 * second;
       WatchdogTick := 1 * second; AlertThreshold := 3 |} = Panics.
Proof. reflexivity. Qed.

(** * Capture: the properties *)

(** ** Slices *)

Lemma length_setAt {A : Type} (i : nat) (x : A) (l : list A) :
  List.length (setAt i x l) = List.length l.
Proof.
  revert i. induction l as [| y l IH]; intros [| i]; cbn; try reflexivity.
  now rewrite IH.
Qed.

Lemma nth_error_setAt_other {A : Type} (i j : nat) (x : A) (l : list A) :
  i <> j -> nth_error (setAt i x l) j = nth_error l j.
Proof.
  revert i j. induction l as [| y l IH]; intros [| i] [| j] Hne; cbn;
    try reflexivity; try congruence.
  apply IH. congruence.
Qed.

Lemma setAt_split {A : Type} (i : nat) (x d : A) (l : list A) :
  nth_error l i = Some d ->
  l = firstn i l ++ d :: skipn (S i) l /\
  setAt i x l = firstn i l ++ x :: skipn (S i) l.
Proof.
  revert i. induction l as [| y l IH]; intros [| i] Hd; cbn in Hd; try discriminate.
  - injection Hd as ->. split; reflexivity.
  - destruct (IH i Hd) as (H1 & H2). cbn [firstn skipn app setAt].
    split; f_equal; assumption.
Qed.

Lemma firstn_setAt_beyond {A : Type} (i n : nat) (x : A) (l : list A) :
  (n <= i)%nat -> firstn n (setAt i x l) = firstn n l.
Proof.
  revert i n. induction l as [| y l IH]; intros [| i] [| n] Hle; cbn;
    try reflexivity; try lia.
  f_equal. apply IH. lia.
Qed.

Lemma firstn_setAt_inside {A : Type} (i m : nat) (x : A) (l : list A) :
  (i < m)%nat -> firstn m (setAt i x l) = setAt i x (firstn m l).
Proof.
  revert i m. induction l as [| y l IH]; intros [| i] [| m] Hlt; cbn;
    try reflexivity; try lia.
  f_equal. apply IH. lia.
Qed.

Lemma skipn_setAt_before {A : Type} (i n : nat) (x : A) (l : list A) :
  (i < n)%nat -> skipn n (setAt i x l) = skipn n l.
Proof.
  revert i n. induction l as [| y l IH]; intros [| i] [| n] Hlt; cbn;
    try reflexivity; try lia.
  apply IH. lia.
Qed.

Lemma firstn_last {A : Type} (n : nat) (d : A) (l : list A) :
  nth_error l n = Some d -> firstn (S n) l = firstn n l ++ [d].
Proof.
  revert n. induction l as [| y l IH]; intros [| n] Hd; cbn in Hd; try discriminate.
  - injection Hd as ->. reflexivity.
  - cbn [firstn app]. f_equal. apply IH. exact Hd.
Qed.

Lemma nth_error_firstn_lt {A : Type} (n j : nat) (l : list A) :
  (j < n)%nat -> nth_error (firstn n l) j = nth_error l j.
Proof.
  revert n j. induction l as [| y l IH]; intros [| n] [| j] Hlt; cbn;
    try reflexivity; try lia.
  apply IH. lia.
Qed.

(** What [swapRemove] returns, and when. *)
Lemma swapRemove_returns (index : nat) (arr : list Interface) (n : nat)
  (arr' : list Interface) (n' : nat) :
  (n <= List.length arr)%nat ->
  swapRemove index arr n = Returns (arr', n') ->
  (index < n)%nat /\ n' = (n - 1)%nat /\
  exists last, nth_error arr (n - 1) = Some last /\ arr' = setAt index last arr.
Proof.
  intros Hn. unfold swapRemove.
  destruct (nth_error (firstn n arr) (n - 1)) as [last |] eqn:Hlast; [| discriminate].
  destruct (Nat.ltb_spec index n) as [Hlt | Hge]; [| discriminate].
  intros H. injection H as <- <-.
  rewrite nth_error_firstn_lt in Hlast by lia.
  split; [exact Hlt | split; [reflexivity |]]. exists last. split; [exact Hlast | reflexivity].
Qed.

Lemma swapRemove_outside (index : nat) (arr : list Interface) (n : nat) :
  (n <= index)%nat -> swapRemove index arr n = Panics.
Proof.
  intros Hle. unfold swapRemove.
  destruct (nth_error (firstn n arr) (n - 1)); [| reflexivity].
  destruct (Nat.ltb_spec index n); [lia | reflexivity].
Qed.

Lemma swapRemove_inside (index : nat) (arr : list Interface) (n : nat) :
  (index < n)%nat -> (n <= List.length arr)%nat ->
  exists last, nth_error arr (n - 1) = Some last /\
               swapRemove index arr n = Returns (setAt index last arr, (n - 1)%nat).
Proof.
  intros Hlt Hn. unfold swapRemove.
  rewrite nth_error_firstn_lt by lia.
  destruct (nth_error arr (n - 1)) as [last |] eqn:Hlast.
  - exists last. destruct (Nat.ltb_spec index n); [auto | lia].
  - apply nth_error_None in Hlast. lia.
Qed.

Lemma isUp_false (d : Interface) : isUp d = false <-> (Z.land (Flags d) FlagUp =? 0) = true.
Proof. unfold isUp. apply negb_false_iff. Qed.

Lemma isUp_true (d : Interface) : isUp d = true <-> (Z.land (Flags d) FlagUp =? 0) = false.
Proof. unfold isUp. apply negb_true_iff. Qed.

Lemma purgeLoop_step (count index : nat) (arr : list Interface) (n : nat) (d : Interface) :
  nth_error arr index = Some d ->
  purgeLoop (S count) index arr n =
  if isUp d then purgeLoop count (S index) arr n
  else match swapRemove index arr n with
       | Returns (arr', n') => purgeLoop count (S index) arr' n'
       | Panics => Panics
       end.
Proof.
  intros Hd. cbn [purgeLoop]. rewrite Hd. unfold isUp.
  destruct (Z.land (Flags d) FlagUp =? 0); reflexivity.
Qed.

(** A down interface in a cell the range has still to visit, behind the
    end of the slice, makes the purge panic. *)
Lemma purgeLoop_doomed (count : nat) :
  forall index arr n k d,
    (index + count = List.length arr)%nat ->
    (index <= k)%nat -> (n <= k)%nat ->
    nth_error arr k = Some d -> isUp d = false ->
    purgeLoop count index arr n = Panics.
Proof.
  induction count as [| count IH]; intros index arr n k d Hlen Hik Hnk Hd Hdown.
  - assert (k < List.length arr)%nat by (apply nth_error_Some; congruence). lia.
  - destruct (nth_error arr index) as [d0 |] eqn:Hd0;
      [| apply nth_error_None in Hd0; lia].
    rewrite (purgeLoop_step _ _ _ _ _ Hd0).
    destruct (Nat.eq_dec index k) as [-> | Hne].
    + assert (d0 = d) by congruence. subst d0. rewrite Hdown.
      rewrite swapRemove_outside by exact Hnk. reflexivity.
    + destruct (isUp d0).
      * apply (IH (S index) arr n k d); try assumption; lia.
      * destruct (swapRemove index arr n) as [| [arr' n']] eqn:Hswap; [reflexivity |].
        assert (Hn : (n <= List.length arr)%nat).
        { destruct (Nat.le_gt_cases n (List.length arr)) as [H | H]; [exact H |].
          assert (k < List.length arr)%nat by (apply nth_error_Some; congruence). lia. }
        destruct (swapRemove_returns _ _ _ _ _ Hn Hswap) as (Hlt & -> & last & Hlast & ->).
        apply (IH (S index) _ _ k d).
        -- rewrite length_setAt. lia.
        -- lia.
        -- lia.
        -- rewrite nth_error_setAt_other by exact Hne. exact Hd.
        -- exact Hdown.
Qed.

Lemma purgeLoop_returns (count : nat) :
  forall index arr n arr' n',
    (index + count = List.length arr)%nat ->
    (n <= List.length arr)%nat ->
    Forall (fun d => isUp d = true) (firstn (Nat.min index n) arr) ->
    purgeLoop count index arr n = Returns (arr', n') ->
    Forall (fun d => isUp d = true) (firstn n' arr') /\
    Permutation (filter isUp (firstn n' arr')) (filter isUp (firstn n arr)) /\
    List.length arr' = List.length arr /\ (n' <= n)%nat.
Proof.
  induction count as [| count IH]; intros index arr n arr' n' Hlen Hn Hup Hret.
  - cbn in Hret. injection Hret as <- <-.
    replace (Nat.min index n) with n in Hup by lia. auto.
  - destruct (nth_error arr index) as [d0 |] eqn:Hd0;
      [| apply nth_error_None in Hd0; lia].
    rewrite (purgeLoop_step _ _ _ _ _ Hd0) in Hret.
    destruct (isUp d0) eqn:Hup0.
    + apply (IH (S index) arr n arr' n'); try assumption; try lia.
      destruct (Nat.lt_ge_cases index n) as [Hlt | Hge].
      * replace (Nat.min (S index) n) with (S index) by lia.
        replace (Nat.min index n) with index in Hup by lia.
        rewrite (firstn_last _ _ _ Hd0). apply Forall_app. split; [exact Hup |].
        constructor; [exact Hup0 | constructor].
      * replace (Nat.min (S index) n) with n by lia.
        replace (Nat.min index n) with n in Hup by lia. exact Hup.
    + destruct (swapRemove index arr n) as [| [arr1 n1]] eqn:Hswap; [discriminate |].
      destruct (swapRemove_returns _ _ _ _ _ Hn Hswap) as (Hlt & -> & last & Hlast & ->).
      replace (Nat.min index n) with index in Hup by lia.
      assert (Hn1 : nth_error arr (n - 1) = Some last) by exact Hlast.
      assert (Hfirst : firstn n arr = firstn (n - 1) arr ++ [last]).
      { replace n with (S (n - 1)) at 1 by lia. apply firstn_last. exact Hlast. }
      destruct (Nat.eq_dec index (n - 1)) as [Heq | Hne].
      * (* the down interface is the last of the slice *)
        assert (last = d0) by congruence. subst last.
        destruct (IH (S index) (setAt index d0 arr) (n - 1)%nat arr' n') as (H1 & H2 & H3 & H4).
        -- rewrite length_setAt. lia.
        -- rewrite length_setAt. lia.
        -- replace (Nat.min (S index) (n - 1)) with index by lia.
           rewrite firstn_setAt_beyond by lia. exact Hup.
        -- exact Hret.
        -- rewrite length_setAt in H3. split; [exact H1 | split; [| split; [exact H3 | lia]]].
           rewrite H2, firstn_setAt_beyond by lia.
           rewrite Hfirst, filter_app. cbn [filter]. rewrite Hup0, app_nil_r. reflexivity.
      * (* another interface is moved into its cell *)
        assert (Hlastup : isUp last = true).
        { destruct (isUp last) eqn:Hl; [reflexivity | exfalso].
          rewrite (purgeLoop_doomed count (S index) (setAt index last arr) (n - 1)%nat
                     (n - 1)%nat last) in Hret; try discriminate; try lia.
          - rewrite length_setAt. lia.
          - rewrite nth_error_setAt_other by exact Hne. exact Hlast.
          - exact Hl. }
        assert (Hd1 : nth_error (firstn (n - 1) arr) index = Some d0)
          by (rewrite nth_error_firstn_lt by lia; exact Hd0).
        destruct (setAt_split index last d0 (firstn (n - 1) arr) Hd1) as (Hs1 & Hs2).
        assert (Hcommute : firstn (n - 1) (setAt index last arr) =
                           setAt index last (firstn (n - 1) arr)).
        { apply firstn_setAt_inside. lia. }
        destruct (IH (S index) (setAt index last arr) (n - 1)%nat arr' n') as (H1 & H2 & H3 & H4).
        -- rewrite length_setAt. lia.
        -- rewrite length_setAt. lia.
        -- replace (Nat.min (S index) (n - 1)) with (S index) by lia.
           assert (Hcell : nth_error (setAt index last arr) index = Some last).
           { destruct (setAt_split index last d0 arr Hd0) as (_ & Hs).
             rewrite Hs. rewrite nth_error_app2 by (rewrite length_firstn; lia).
             rewrite length_firstn. replace (index - Nat.min index (List.length arr))%nat with 0%nat by lia.
             reflexivity. }
           rewrite (firstn_last _ _ _ Hcell), firstn_setAt_beyond by lia.
           apply Forall_app. split; [exact Hup |]. constructor; [exact Hlastup | constructor].
        -- exact Hret.
        -- rewrite length_setAt in H3. split; [exact H1 | split; [| split; [exact H3 | lia]]].
           rewrite H2, Hcommute, Hs2, Hfirst. rewrite Hs1 at 3.
           rewrite !filter_app. cbn [filter]. rewrite Hup0, Hlastup.
           rewrite <- !app_assoc. apply Permutation_app_head.
           cbn [app]. apply Permutation_cons_app. rewrite app_nil_r. reflexivity.
Qed.

Lemma purgeLoop_all_up (count : nat) :
  forall index arr n,
    (index + count = List.length arr)%nat ->
    Forall (fun d => isUp d = true) arr ->
    purgeLoop count index arr n = Returns (arr, n).
Proof.
  induction count as [| count IH]; intros index arr n Hlen Hall.
  - reflexivity.
  - destruct (nth_error arr index) as [d0 |] eqn:Hd0;
      [| apply nth_error_None in Hd0; lia].
    rewrite (purgeLoop_step _ _ _ _ _ Hd0).
    rewrite Forall_forall in Hall. rewrite (Hall d0 (nth_error_In _ _ Hd0)).
    apply IH; [lia |]. apply Forall_forall. exact Hall.
Qed.

Lemma skipn_cons_nth {A : Type} (i : nat) (d : A) (l : list A) :
  nth_error l i = Some d -> skipn i l = d :: skipn (S i) l.
Proof.
  revert i. induction l as [| y l IH]; intros [| i] Hd; cbn in Hd; try discriminate.
  - injection Hd as ->. reflexivity.
  - cbn [skipn]. rewrite (IH i Hd). reflexivity.
Qed.

Lemma countDown_cons (d : Interface) (l : list Interface) :
  countDown (d :: l) = ((if isUp d then 0 else 1) + countDown l)%nat.
Proof. unfold countDown. cbn [filter]. destruct (isUp d); reflexivity. Qed.

(** The purge panics exactly when it comes to a down interface with the
    slice already cut back to its cell or further. *)
Lemma purgeLoop_panics_iff (count : nat) :
  forall index arr n,
    (index + count = List.length arr)%nat ->
    (n <= List.length arr)%nat ->
    purgeLoop count index arr n = Panics <->
    exists k d,
      nth_error arr (index + k) = Some d /\ isUp d = false /\
      (n <= index + k + countDown (firstn k (skipn index arr)))%nat.
Proof.
  induction count as [| count IH]; intros index arr n Hlen Hn.
  - cbn. split; [discriminate |]. intros (k & d & Hd & _).
    assert (index + k < List.length arr)%nat by (apply nth_error_Some; congruence). lia.
  - destruct (nth_error arr index) as [d0 |] eqn:Hd0;
      [| apply nth_error_None in Hd0; lia].
    rewrite (purgeLoop_step _ _ _ _ _ Hd0), (skipn_cons_nth _ _ _ Hd0).
    destruct (isUp d0) eqn:Hup0.
    + rewrite (IH (S index) arr n) by lia. split.
      * intros (k & d & Hd & Hdown & Hle). exists (S k), d.
        replace (index + S k)%nat with (S index + k)%nat by lia.
        cbn [firstn]. rewrite countDown_cons, Hup0. split; [exact Hd | split; [exact Hdown | lia]].
      * intros (k & d & Hd & Hdown & Hle). destruct k as [| k].
        -- rewrite Nat.add_0_r in Hd. congruence.
        -- exists k, d. replace (index + S k)%nat with (S index + k)%nat in Hd by lia.
           cbn [firstn] in Hle. rewrite countDown_cons, Hup0 in Hle.
           split; [exact Hd | split; [exact Hdown | lia]].
    + destruct (Nat.lt_ge_cases index n) as [Hlt | Hge].
      * destruct (swapRemove_inside index arr n Hlt Hn) as (last & Hlast & ->).
        rewrite (IH (S index) (setAt index last arr) (n - 1)%nat)
          by (rewrite length_setAt; lia).
        rewrite skipn_setAt_before by lia. split.
        -- intros (k & d & Hd & Hdown & Hle). exists (S k), d.
           rewrite nth_error_setAt_other in Hd by lia.
           replace (index + S k)%nat with (S index + k)%nat by lia.
           cbn [firstn]. rewrite countDown_cons, Hup0.
           split; [exact Hd | split; [exact Hdown | lia]].
        -- intros (k & d & Hd & Hdown & Hle). destruct k as [| k].
           ++ cbn [firstn] in Hle. unfold countDown in Hle. cbn in Hle. lia.
           ++ exists k, d. rewrite nth_error_setAt_other by lia.
              replace (index + S k)%nat with (S index + k)%nat in Hd by lia.
              cbn [firstn] in Hle. rewrite countDown_cons, Hup0 in Hle.
              split; [exact Hd | split; [exact Hdown | lia]].
      * rewrite swapRemove_outside by exact Hge. split; [| reflexivity].
        intros _. exists 0%nat, d0. rewrite Nat.add_0_r.
        split; [exact Hd0 | split; [exact Hup0 | cbn; lia]].
Qed.

(** ** The tailoring *)

Lemma searchName_found (i : string) (l : list Interface) :
  forall start index d,
    searchName i start l = Some (index, d) ->
    (start <= index)%nat /\ nth_error l (index - start) = Some d /\ Name d = i.
Proof.
  induction l as [| y l IH]; intros start index d Hs; cbn in Hs; [discriminate |].
  destruct (String.eqb_spec (Name y) i) as [Heq | Hne].
  - injection Hs as <- <-. rewrite Nat.sub_diag. auto.
  - destruct (IH _ _ _ Hs) as (Hle & Hd & Hname).
    split; [lia | split; [| exact Hname]].
    replace (index - start)%nat with (S (index - S start))%nat by lia. exact Hd.
Qed.


Lemma subsequence_nil_l {A : Type} (l : list A) : subsequence [] l.
Proof. induction l; constructor; assumption. Qed.

Lemma swapRemove_incl (index : nat) (arr : list Interface) (n : nat) (last : Interface) :
  (index < n)%nat -> nth_error arr (n - 1) = Some last ->
  incl (firstn (n - 1) (setAt index last arr)) (firstn n arr).
Proof.
  intros Hlt Hlast.
  assert (Hfirst : firstn n arr = firstn (n - 1) arr ++ [last]).
  { replace n with (S (n - 1)) at 1 by lia. apply firstn_last. exact Hlast. }
  rewrite Hfirst. destruct (Nat.eq_dec index (n - 1)) as [Heq | Hne].
  - rewrite firstn_setAt_beyond by lia. apply incl_appl, incl_refl.
  - rewrite firstn_setAt_inside by lia.
    assert (Hlen : (n - 1 <= List.length arr)%nat).
    { assert (n - 1 < List.length arr)%nat by (apply nth_error_Some; congruence). lia. }
    destruct (nth_error (firstn (n - 1) arr) index) as [d0 |] eqn:Hd0.
    + destruct (setAt_split index last d0 _ Hd0) as (Hs1 & Hs2). rewrite Hs2.
      intros x Hx. apply in_app_or in Hx as [Hx | [<- | Hx]].
      * apply in_or_app. left. rewrite Hs1. apply in_or_app. left. exact Hx.
      * apply in_or_app. right. left. reflexivity.
      * apply in_or_app. left. rewrite Hs1. apply in_or_app. right. right. exact Hx.
    + apply nth_error_None in Hd0. rewrite length_firstn in Hd0. lia.
Qed.

(** The tailoring never panics; what it adds to the list is taken from the
    slice, and the names of what it adds follow the order of the request. *)
Lemma tailorLoop_returns (names : list string) :
  forall arr n acc logs,
    (n <= List.length arr)%nat ->
    exists added logs',
      tailorLoop names arr n acc logs = Returns (acc ++ added, logs') /\
      subsequence (map Name added) names /\
      incl added (firstn n arr).
Proof.
  induction names as [| i names IH]; intros arr n acc logs Hn.
  - exists [], logs. cbn. rewrite app_nil_r. repeat split; [constructor | apply incl_nil_l].
  - cbn [tailorLoop].
    destruct (searchName i 0 (firstn n arr)) as [[index d] |] eqn:Hsearch.
    + destruct (searchName_found _ _ _ _ _ Hsearch) as (_ & Hd & Hname).
      rewrite Nat.sub_0_r in Hd.
      assert (Hlt : (index < n)%nat).
      { assert (index < List.length (firstn n arr))%nat by (apply nth_error_Some; congruence).
        rewrite length_firstn in H. lia. }
      destruct (swapRemove_inside index arr n Hlt Hn) as (last & Hlast & ->).
      destruct (IH (setAt index last arr) (n - 1)%nat (acc ++ [d])
                  (logs ++ [mkLogEntry InfoLevel []
                              [LogText "Found requested interface "; LogText i]]))
        as (added & logs' & Hrun & Hsub & Hincl).
      { rewrite length_setAt. lia. }
      exists (d :: added), logs'. rewrite Hrun, <- app_assoc. split; [reflexivity | split].
      * cbn [map]. rewrite Hname. apply subsequence_take. exact Hsub.
      * intros x [<- | Hx].
        -- eapply nth_error_In. exact Hd.
        -- apply (swapRemove_incl index arr n last Hlt Hlast). apply Hincl. exact Hx.
    + destruct (IH arr n acc
                  (logs ++ [mkLogEntry ErrorLevel []
                              [LogText "Could not find requested interface among activated interfaces : ";
                               LogText i]]))
        as (added & logs' & Hrun & Hsub & Hincl); [exact Hn |].
      exists added, logs'. split; [exact Hrun | split; [| exact Hincl]].
      apply subsequence_skip. exact Hsub.
Qed.

(** ** [findDevices] *)

Lemma purge_of (devices arr : list Interface) (n : nat) :
  purgeLoop (List.length devices) 0 devices (List.length devices) = Returns (arr, n) ->
  Forall (fun d => isUp d = true) (firstn n arr) /\
  Permutation (firstn n arr) (filter isUp devices) /\
  (n <= List.length arr)%nat.
Proof.
  intros Hret.
  destruct (purgeLoop_returns (List.length devices) 0 devices (List.length devices) arr n)
    as (H1 & H2 & H3 & H4);
    try exact Hret; try lia.
  { cbn. constructor. }
  split; [exact H1 | split; [| lia]].
  rewrite firstn_all in H2. rewrite <- H2.
  rewrite (forallb_filter_id isUp (firstn n arr)); [reflexivity |].
  apply forallb_forall. rewrite Forall_forall in H1. exact H1.
Qed.

(** When [findDevices] panics. *)
Lemma findDevices_panics_exactly (devices : list Interface) (interfaces : option (list string)) :
  findDevices (inl devices) interfaces = Panics <->
  exists k d,
    nth_error devices k = Some d /\ isUp d = false /\
    (List.length devices <= k + countDown (firstn k devices))%nat.
Proof.
  unfold findDevices.
  destruct (Nat.eqb_spec (List.length devices) 0) as [Hempty | Hne].
  - split; [discriminate |]. intros (k & d & Hd & _).
    assert (k < List.length devices)%nat by (apply nth_error_Some; congruence). lia.
  - rewrite <- (purgeLoop_panics_iff (List.length devices) 0 devices (List.length devices))
      by lia.
    destruct (purgeLoop (List.length devices) 0 devices (List.length devices))
      as [| [arr n]] eqn:Hpurge.
    + split; reflexivity.
    + destruct interfaces as [names |].
      * destruct (purge_of _ _ _ Hpurge) as (_ & _ & Hn).
        destruct (tailorLoop_returns names arr n [] [] Hn) as (added & logs' & Hrun & _).
        rewrite Hrun. destruct (List.length ([] ++ added) =? 0)%nat; split; discriminate.
      * split; discriminate.
Qed.

Lemma countDown_app (l1 l2 : list Interface) :
  countDown (l1 ++ l2) = (countDown l1 + countDown l2)%nat.
Proof. unfold countDown. rewrite filter_app, length_app. reflexivity. Qed.

Lemma countDown_before (l : list Interface) (k : nat) (d : Interface) :
  nth_error l k = Some d -> isUp d = false ->
  (countDown (firstn k l) + 1 <= countDown l)%nat.
Proof.
  intros Hd Hdown.
  destruct (setAt_split k d d l Hd) as (Hsplit & _).
  rewrite Hsplit at 2. rewrite countDown_app, countDown_cons, Hdown. lia.
Qed.

(** X10: [findDevices] panics exactly when the system list holds a down
    interface, at some position [k], with so many down interfaces in front
    of it that their number and [k] together reach the length of the list:
    the purge has by then cut the slice back to that cell or further, and
    writes outside it.  What the caller asks for plays no part. *)
Theorem findDevices_panics_iff (devices : list Interface) (interfaces : option (list string)) :
  findDevices (inl devices) interfaces = Panics <->
  exists k d,
    nth_error devices k = Some d /\ isUp d = false /\
    (List.length devices <= k + countDown (firstn k devices))%nat.
Proof. apply findDevices_panics_exactly. Qed.

(** X11: with at most one down interface in the system list [findDevices]
    does not panic; with a down interface at the end of the list and
    another one anywhere in front of it, it does. *)
Theorem findDevices_panic_cases (devices : list Interface) (interfaces : option (list string)) :
  ((countDown devices <= 1)%nat -> findDevices (inl devices) interfaces <> Panics) /\
  (forall front last,
      devices = front ++ [last] -> isUp last = false -> (1 <= countDown front)%nat ->
      findDevices (inl devices) interfaces = Panics).
Proof.
  split.
  - intros Hone Hpanic.
    apply findDevices_panics_exactly in Hpanic as (k & d & Hd & Hdown & Hle).
    pose proof (countDown_before devices k d Hd Hdown).
    assert (k < List.length devices)%nat by (apply nth_error_Some; congruence). lia.
  - intros front last -> Hdown Hfront. apply findDevices_panics_exactly.
    exists (List.length front), last. split; [| split; [exact Hdown |]].
    + rewrite nth_error_app2 by lia. rewrite Nat.sub_diag. reflexivity.
    + rewrite firstn_app, Nat.sub_diag, firstn_all, app_nil_r, length_app. cbn. lia.
Qed.

(** Whatever [findDevices] returns is up and comes from the system list. *)
Lemma findDevices_found (devices : list Interface) (interfaces : option (list string))
  (found : list Interface) (logs : list LogEntry) :
  findDevices (inl devices) interfaces = Returns (Some found, logs) ->
  Forall (fun d => isUp d = true /\ In d devices) found.
Proof.
  unfold findDevices.
  destruct (List.length devices =? 0)%nat; [discriminate |].
  destruct (purgeLoop (List.length devices) 0 devices (List.length devices))
    as [| [arr n]] eqn:Hpurge; [discriminate |].
  destruct (purge_of _ _ _ Hpurge) as (Hup & Hperm & Hn).
  assert (Hslice : forall d, In d (firstn n arr) -> isUp d = true /\ In d devices).
  { intros d Hd. rewrite Forall_forall in Hup. split; [apply Hup; exact Hd |].
    assert (Hf : In d (filter isUp devices))
      by (eapply Permutation_in; [exact Hperm | exact Hd]).
    apply filter_In in Hf. tauto. }
  destruct interfaces as [names |].
  - destruct (tailorLoop_returns names arr n [] [] Hn) as (added & logs' & Hrun & _ & Hincl).
    rewrite Hrun. cbn [app]. destruct (List.length added =? 0)%nat; [discriminate |].
    intros H. injection H as <- <-. apply Forall_forall. intros d Hd.
    apply Hslice, Hincl, Hd.
  - intros H. injection H as <- <-. apply Forall_forall. exact Hslice.
Qed.

(** X12: asked for no interface in particular, [findDevices] returns the
    up interfaces of the system list, each as often as it is there, in
    some order, and logs nothing; a list of up interfaces only is returned
    as it is. *)
Theorem findDevices_without_request (devices : list Interface) :
  (forall found logs,
      findDevices (inl devices) None = Returns (Some found, logs) ->
      Forall (fun d => isUp d = true) found /\
      Permutation found (filter isUp devices) /\
      logs = []) /\
  (devices <> [] -> Forall (fun d => isUp d = true) devices ->
   findDevices (inl devices) None = Returns (Some devices, [])).
Proof.
  split.
  - intros found logs. unfold findDevices.
    destruct (List.length devices =? 0)%nat; [discriminate |].
    destruct (purgeLoop (List.length devices) 0 devices (List.length devices))
      as [| [arr n]] eqn:Hpurge; [discriminate |].
    intros H. injection H as <- <-.
    destruct (purge_of _ _ _ Hpurge) as (H1 & H2 & _). auto.
  - intros Hne Hall. unfold findDevices.
    destruct (Nat.eqb_spec (List.length devices) 0) as [Hempty | _].
    + destruct devices; [congruence | discriminate].
    + rewrite purgeLoop_all_up by (try exact Hall; lia).
      rewrite firstn_all. reflexivity.
Qed.

(** X13: asked for interfaces by name, [findDevices] returns a list that is
    not empty, of up interfaces of the system list whose names were asked
    for, their names in the order of the request. *)
Theorem findDevices_with_request
  (devices : list Interface) (names : list string)
  (found : list Interface) (logs : list LogEntry) :
  findDevices (inl devices) (Some names) = Returns (Some found, logs) ->
  found <> [] /\
  Forall (fun d => isUp d = true /\ In d devices /\ In (Name d) names) found /\
  subsequence (map Name found) names.
Proof.
  unfold findDevices.
  destruct (List.length devices =? 0)%nat; [discriminate |].
  destruct (purgeLoop (List.length devices) 0 devices (List.length devices))
    as [| [arr n]] eqn:Hpurge; [discriminate |].
  destruct (purge_of _ _ _ Hpurge) as (Hup & Hperm & Hn).
  destruct (tailorLoop_returns names arr n [] [] Hn) as (added & logs' & Hrun & Hsub & Hincl).
  rewrite Hrun. cbn [app].
  destruct (Nat.eqb_spec (List.length added) 0) as [Hz | Hnz]; [discriminate |].
  intros H. injection H as <- <-.
  split; [destruct added; [contradiction | discriminate] | split; [| exact Hsub]].
  apply Forall_forall. intros d Hd.
  assert (Hslice : In d (firstn n arr)) by (apply Hincl; exact Hd).
  rewrite Forall_forall in Hup. split; [apply Hup; exact Hslice | split].
  - assert (Hf : In d (filter isUp devices))
      by (eapply Permutation_in; [exact Hperm | exact Hslice]).
    apply filter_In in Hf. tauto.
  - clear - Hsub Hd. 
    assert (Hin : In (Name d) (map Name added)) by (apply in_map; exact Hd).
    revert Hin. generalize (Name d). induction Hsub; intros x Hx.
    + exact Hx.
    + right. apply IHHsub. exact Hx.
    + destruct Hx as [<- | Hx]; [left; reflexivity | right; apply IHHsub; exact Hx].
Qed.

(** ** Strings *)

Lemma prefix_append (a b : string) : String.prefix a (a ++ b) = true.
Proof.
  induction a as [| c a IH]; cbn.
  - destruct b; reflexivity.
  - destruct (ascii_dec c c); [exact IH | congruence].
Qed.

Lemma prefix_split (a s : string) :
  String.prefix a s = true -> exists post, s = (a ++ post)%string.
Proof.
  revert s. induction a as [| c a IH]; intros s Hp.
  - exists s. reflexivity.
  - destruct s as [| c' s]; cbn in Hp; [discriminate |].
    destruct (ascii_dec c c') as [<- | _]; [| discriminate].
    destruct (IH s Hp) as (post & ->). exists post. reflexivity.
Qed.

Lemma Contains_unfold (s substr : string) :
  Contains s substr =
  String.prefix substr s ||
  match s with
  | EmptyString => false
  | String _ tl => Contains tl substr
  end.
Proof. destruct s; reflexivity. Qed.

Lemma Contains_iff (s substr : string) :
  Contains s substr = true <-> exists pre post, s = (pre ++ substr ++ post)%string.
Proof.
  split.
  - induction s as [| c s IH]; rewrite Contains_unfold; intros H;
      apply orb_true_iff in H as [H | H].
    + apply prefix_split in H as (post & ->). exists EmptyString, post. reflexivity.
    + discriminate.
    + apply prefix_split in H as (post & ->). exists EmptyString, post. reflexivity.
    + destruct (IH H) as (pre & post & ->). exists (String c pre), post. reflexivity.
  - intros (pre & post & ->). induction pre as [| c pre IH].
    + cbn [String.append]. rewrite Contains_unfold, prefix_append. reflexivity.
    + cbn [String.append]. rewrite Contains_unfold, IH. apply orb_true_r.
Qed.

Lemma IndexByte_nonneg_bound (s : string) (c : ascii) : -1 <= IndexByte s c.
Proof.
  induction s as [| a s IH]; cbn [IndexByte]; [lia |].
  destruct (a =? c)%char; [lia |]. destruct (Z.ltb_spec (IndexByte s c) 0); lia.
Qed.

Lemma IndexByte_lacks (s : string) (c : ascii) :
  lacksByte c s = true -> IndexByte s c = -1.
Proof.
  induction s as [| a s IH]; cbn [lacksByte IndexByte]; intros H; [reflexivity |].
  apply andb_true_iff in H as [Ha Hs]. apply negb_true_iff in Ha.
  rewrite Ha, (IH Hs). reflexivity.
Qed.

Lemma IndexByte_first (pre post : string) (c : ascii) :
  lacksByte c pre = true ->
  IndexByte (pre ++ String c post) c = Z.of_nat (String.length pre).
Proof.
  induction pre as [| a pre IH]; intros H.
  - cbn. rewrite Ascii.eqb_refl. reflexivity.
  - cbn [lacksByte] in H. apply andb_true_iff in H as [Ha Hs]. apply negb_true_iff in Ha.
    cbn [String.append IndexByte String.length]. rewrite Ha, (IH Hs).
    destruct (Z.ltb_spec (Z.of_nat (String.length pre)) 0); lia.
Qed.

Lemma substring_prefix (pre rest : string) :
  String.substring 0 (String.length pre) (pre ++ rest) = pre.
Proof.
  induction pre as [| a pre IH]; cbn.
  - destruct rest; reflexivity.
  - rewrite IH. reflexivity.
Qed.

Lemma length_append (a b : string) :
  String.length (a ++ b) = (String.length a + String.length b)%nat.
Proof. induction a as [| c a IH]; cbn; [reflexivity | now rewrite IH]. Qed.

Lemma compare_same (b : string) : String.compare b b = Eq.
Proof.
  pose proof (String.compare_antisym b b) as H.
  destruct (String.compare b b); cbn in H; congruence.
Qed.

Lemma Compare_zero (a b : string) : (Compare a b =? 0) = true <-> a = b.
Proof.
  unfold Compare. destruct (String.compare a b) eqn:Hc.
  - apply String.compare_eq_iff in Hc. split; [intros _; exact Hc | reflexivity].
  - split; [discriminate |]. intros ->. rewrite compare_same in Hc. discriminate.
  - split; [discriminate |]. intros ->. rewrite compare_same in Hc. discriminate.
Qed.

(** ** Packets *)

(** X14: [sniffApplicationLayer] accepts a packet exactly when the packet
    has an application layer and the filter text occurs in its payload. *)
Theorem sniffApplicationLayer_iff (packet : Packet) (filter : string) :
  sniffApplicationLayer packet filter = true <->
  exists pre post,
    applicationPayload packet = Some (pre ++ filter ++ post)%string.
Proof.
  unfold sniffApplicationLayer. destruct (applicationPayload packet) as [payload |].
  - destruct (Contains payload filter) eqn:Hc.
    + apply Contains_iff in Hc as (pre & post & ->). split; [| reflexivity].
      intros _. exists pre, post. reflexivity.
    + split; [discriminate |]. intros (pre & post & H). injection H as ->.
      assert (Contains (pre ++ filter ++ post) filter = true)
        by (apply Contains_iff; exists pre, post; reflexivity).
      congruence.
  - split; [discriminate |]. intros (pre & post & H). discriminate.
Qed.

(** X15: on a packet with a network layer [getRemoteIP] returns the
    destination when the device address is the source, the source
    otherwise; so when the device address is one of two different
    endpoints, it returns the other one. *)
Theorem getRemoteIP_other_endpoint (packet : Packet) (deviceIP src dst : string) :
  networkEndpoints packet = Some (src, dst) ->
  getRemoteIP packet deviceIP = Returns (if String.eqb deviceIP src then dst else src) /\
  (src <> dst -> deviceIP = src \/ deviceIP = dst ->
   exists remote,
     getRemoteIP packet deviceIP = Returns remote /\
     remote <> deviceIP /\ (remote = src \/ remote = dst)).
Proof.
  intros Hflow. unfold getRemoteIP. rewrite Hflow.
  assert (Heq : (Compare deviceIP src =? 0) = String.eqb deviceIP src).
  { destruct (String.eqb_spec deviceIP src) as [-> | Hne].
    - apply Compare_zero. reflexivity.
    - destruct (Compare deviceIP src =? 0) eqn:Hc; [| reflexivity].
      apply Compare_zero in Hc. contradiction. }
  rewrite Heq. split.
  - destruct (String.eqb deviceIP src); reflexivity.
  - intros Hne Hone. destruct (String.eqb_spec deviceIP src) as [-> | Hns].
    + exists dst. split; [reflexivity | split; [congruence | right; reflexivity]].
    + exists src. split; [reflexivity | split; [congruence | left; reflexivity]].
Qed.

(** X16: [getDeviceIP] passes on the error of [Addrs()] with an empty
    address; it panics when there is no address and when the first address
    has no slash; otherwise it returns the first address up to its first
    slash. *)
Theorem getDeviceIP_cases :
  (forall err, getDeviceIP (inr err) = Returns (EmptyString, Some err)) /\
  getDeviceIP (inl []) = Panics /\
  (forall a0 more, lacksByte "/" a0 = true -> getDeviceIP (inl (a0 :: more)) = Panics) /\
  (forall ip rest more,
      lacksByte "/" ip = true ->
      getDeviceIP (inl ((ip ++ String "/" rest)%string :: more)) = Returns (ip, None)).
Proof.
  split; [reflexivity | split; [reflexivity | split]].
  - intros a0 more Hlacks. unfold getDeviceIP. cbn [nth_error].
    rewrite (IndexByte_lacks _ _ Hlacks). reflexivity.
  - intros ip rest more Hlacks. unfold getDeviceIP. cbn [nth_error].
    rewrite (IndexByte_first _ _ _ Hlacks). unfold sliceTo.
    rewrite length_append. cbn [String.length].
    destruct (Z.ltb_spec (Z.of_nat (String.length ip)) 0); [lia |].
    destruct (Z.ltb_spec (Z.of_nat (String.length ip + S (String.length rest)))
                (Z.of_nat (String.length ip))); [lia |].
    cbn [orb]. rewrite Nat2Z.id, substring_prefix. reflexivity.
Qed.

Lemma sentPackets_app (e1 e2 : list PacketEffect) :
  sentPackets (e1 ++ e2) = sentPackets e1 ++ sentPackets e2.
Proof.
  induction e1 as [| e e1 IH]; [reflexivity |].
  destruct e; cbn [app sentPackets]; rewrite IH; reflexivity.
Qed.

Lemma sentPackets_logs (logs : list LogEntry) : sentPackets (map PacketLogged logs) = [].
Proof. induction logs; [reflexivity | exact IHlogs]. Qed.

Lemma captureLoop_forwards (dev : Interface) (filter : Filter)
  (source : list (Packet * (list string + GoError))) :
  snd (captureLoop dev filter source) = true ->
  map rawPacket (sentPackets (fst (captureLoop dev filter source))) =
    List.filter (fun p => sniffApplicationLayer p (Application filter)) (map fst source) /\
  Forall (fun m => device m = Name dev /\ dataType m = Type_ filter)
    (sentPackets (fst (captureLoop dev filter source))).
Proof.
  induction source as [| [packet addrs] source IH]; intros Hend.
  - split; [reflexivity | constructor].
  - cbn [captureLoop] in *. cbn [map fst List.filter]. unfold capturePacket in *.
    destruct (sniffApplicationLayer packet (Application filter)) eqn:Hsniff.
    + destruct (getDeviceIP addrs) as [| [ip err]]; [discriminate |].
      destruct (getRemoteIP packet ip) as [| remote]; [discriminate |].
      destruct (captureLoop dev filter source) as [effects ended].
      cbn [fst snd] in *. destruct (IH Hend) as (H1 & H2).
      rewrite !sentPackets_app, sentPackets_logs. cbn [app sentPackets map rawPacket].
      split; [f_equal; exact H1 | constructor; [split; reflexivity | exact H2]].
    + destruct (captureLoop dev filter source) as [effects ended].
      cbn [fst snd map app] in *. exact (IH Hend).
Qed.

(** X17: when [capturePackets] comes to the end of its source, the packets
    it has sent on [packetChan] are the packets of the source that
    [sniffApplicationLayer] accepts, all of them and in the order they
    came, each message carrying the name of the device and the type of the
    filter. *)
Theorem capturePackets_forwards_matches
  (dev : Interface) (filter : Filter) (source : list (Packet * (list string + GoError))) :
  snd (capturePackets dev filter source) = true ->
  map rawPacket (sentPackets (fst (capturePackets dev filter source))) =
    List.filter (fun p => sniffApplicationLayer p (Application filter)) (map fst source) /\
  Forall (fun m => device m = Name dev /\ dataType m = Type_ filter)
    (sentPackets (fst (capturePackets dev filter source))).
Proof.
  unfold capturePackets. pose proof (captureLoop_forwards dev filter source) as Hloop.
  destruct (captureLoop dev filter source) as [effects ended]. cbn [fst snd] in Hloop.
  destruct ended; [| discriminate]. intros _.
  cbn [fst sentPackets]. rewrite sentPackets_app. cbn [sentPackets].
  rewrite app_nil_r. apply Hloop. reflexivity.
Qed.

(** ** Handles *)

Section CaptureProperties.

Context {Handle : Type}.
Variable OpenLive : string -> Z -> bool -> Z -> Handle + GoError.
Variable SetBPFFilter : Handle -> string -> option GoError.

Lemma openAll_pairs (found : list Interface) :
  forall (devs : @Devices Handle) logs,
    Forall2 (fun d h => OpenLive (Name d) snapshotLen promiscuous timeout = inl h)
      (devices devs) (handles devs) ->
    Forall2 (fun d h => OpenLive (Name d) snapshotLen promiscuous timeout = inl h)
      (devices (fst (openAll OpenLive found devs logs)))
      (handles (fst (openAll OpenLive found devs logs))) /\
    incl (devices (fst (openAll OpenLive found devs logs))) (devices devs ++ found).
Proof.
  induction found as [| d found IH]; intros devs logs Hpairs.
  - cbn. split; [exact Hpairs | rewrite app_nil_r; apply incl_refl].
  - cbn [openAll]. unfold openDevice.
    destruct (OpenLive (Name d) snapshotLen promiscuous timeout) as [h | err] eqn:Hopen.
    + destruct (IH {| devices := devices devs ++ [d]; handles := handles devs ++ [h] |}
                  (logs ++ [mkLogEntry InfoLevel [logField "interface" (Name d)]
                              [LogText "Opened device interface."]])) as (H1 & H2).
      { cbn [devices handles]. apply Forall2_app; [exact Hpairs |].
        constructor; [exact Hopen | constructor]. }
      split; [exact H1 |]. cbn [devices] in H2. rewrite <- app_assoc in H2. exact H2.
    + destruct (IH devs
                  (logs ++
                   [mkLogEntry ErrorLevel [logField "interface" (Name d); logField "error" err]
                      [LogText "Could not open device."]] ++
                   [mkLogEntry ErrorLevel [logField "error" err]
                      [LogText "Could not open device for capture."]])) as (H1 & H2);
        [exact Hpairs |].
      split; [exact H1 |]. intros x Hx. apply H2 in Hx.
      apply in_app_or in Hx as [Hx | Hx]; apply in_or_app; [left | right; right]; exact Hx.
Qed.

Lemma closeFrom_spec (ds : list Interface) (hs : list Handle) :
  forall index,
    (index <= List.length hs)%nat ->
    closedHandles (fst (closeFrom index ds hs)) =
      firstn (List.length ds) (skipn index hs) /\
    (snd (closeFrom index ds hs) = true <-> (index + List.length ds <= List.length hs)%nat).
Proof.
  induction ds as [| dev ds IH]; intros index Hindex.
  - cbn [closeFrom fst snd closedHandles List.length firstn].
    split; [reflexivity | split; [lia | reflexivity]].
  - cbn [closeFrom List.length].
    destruct (nth_error hs index) as [h |] eqn:Hh.
    + assert (index < List.length hs)%nat by (apply nth_error_Some; congruence).
      destruct (IH (S index)) as (H1 & H2); [lia |].
      destruct (closeFrom (S index) ds hs) as [effects ended].
      cbn [fst snd closedHandles] in *.
      rewrite (skipn_cons_nth _ _ _ Hh). cbn [firstn]. rewrite H1.
      split; [reflexivity |]. rewrite H2. lia.
    + cbn [fst snd closedHandles]. apply nth_error_None in Hh.
      rewrite skipn_all2 by exact Hh. cbn [firstn].
      split; [reflexivity |]. split; [discriminate | lia].
Qed.

(** X18: [closeDevices] comes to its end exactly when there are at least
    as many handles as devices; in any case it closes, in order and once
    each, the handles at the indices of the devices, as far as there are
    handles. *)
Theorem closeDevices_closes_each_handle (devs : @Devices Handle) :
  (snd (closeDevices devs) = true <->
   (List.length (devices devs) <= List.length (handles devs))%nat) /\
  closedHandles (fst (closeDevices devs)) =
    firstn (List.length (devices devs)) (handles devs).
Proof.
  unfold closeDevices.
  destruct (closeFrom_spec (devices devs) (handles devs) 0) as (H1 & H2); [lia |].
  split; [rewrite H2; cbn; reflexivity | exact H1].
Qed.

(** X19: when [InitialiseCapture] returns devices, it returns no error;
    the devices are not empty, all up, and paired with the handles:
    each handle is the one [pcap.OpenLive] gave for the device at the same
    index.  [closeDevices] then runs to its end and closes exactly those
    handles. *)
Theorem InitialiseCapture_devices_and_handles
  (sys : list Interface + GoError) (interfaces : option (list string))
  (devs : @Devices Handle) (err : option GoError) (logs : list LogEntry) :
  InitialiseCapture OpenLive sys interfaces = Returns ((Some devs, err), logs) ->
  err = None /\
  devices devs <> [] /\
  Forall2 (fun d h => OpenLive (Name d) snapshotLen promiscuous timeout = inl h)
    (devices devs) (handles devs) /\
  Forall (fun d => isUp d = true) (devices devs) /\
  snd (closeDevices devs) = true /\
  closedHandles (fst (closeDevices devs)) = handles devs.
Proof.
  unfold InitialiseCapture.
  destruct (findDevices sys interfaces) as [| [[found |] flogs]] eqn:Hfind;
    [discriminate | | discriminate].
  destruct (openAll_pairs found {| devices := []; handles := [] |} flogs) as (Hpairs & Hincl).
  { constructor. }
  destruct (openAll OpenLive found {| devices := []; handles := [] |} flogs) as [devs' logs'].
  cbn [fst devices app] in Hpairs, Hincl.
  destruct (Nat.eqb_spec (List.length (devices devs')) 0) as [Hz | Hnz]; [discriminate |].
  intros H. injection H as <- <- <-.
  assert (Hlen : List.length (devices devs') = List.length (handles devs'))
    by (eapply Forall2_length; exact Hpairs).
  destruct (closeFrom_spec (devices devs') (handles devs') 0) as (Hclosed & Hends); [lia |].
  fold (closeDevices devs') in Hclosed, Hends. cbn [skipn] in Hclosed.
  split; [reflexivity | split; [| split; [exact Hpairs | split; [| split]]]].
  - destruct (devices devs'); [contradiction | discriminate].
  - apply Forall_forall. intros d Hd. apply Hincl in Hd.
    destruct sys as [all | e]; [| discriminate].
    pose proof (findDevices_found all interfaces found flogs Hfind) as Hall.
    rewrite Forall_forall in Hall. apply Hall. exact Hd.
  - apply Hends. lia.
  - rewrite Hclosed, Hlen. apply firstn_all.
Qed.


Lemma closedHandles_app (e1 e2 : list (@CaptureEffect Handle)) :
  closedHandles (e1 ++ e2) = closedHandles e1 ++ closedHandles e2.
Proof.
  induction e1 as [| e e1 IH]; [reflexivity |].
  destruct e; cbn [app closedHandles]; rewrite IH; reflexivity.
Qed.

Lemma startedCaptures_app (e1 e2 : list (@CaptureEffect Handle)) :
  startedCaptures (e1 ++ e2) = startedCaptures e1 ++ startedCaptures e2.
Proof.
  induction e1 as [| e e1 IH]; [reflexivity |].
  destruct e; cbn [app startedCaptures]; rewrite IH; reflexivity.
Qed.

Lemma closeFrom_starts_nothing (ds : list Interface) (hs : list Handle) :
  forall index, startedCaptures (fst (closeFrom index ds hs)) = [].
Proof.
  induction ds as [| dev ds IH]; intros index; [reflexivity |].
  cbn [closeFrom]. destruct (nth_error hs index); [| reflexivity].
  specialize (IH (S index)). destruct (closeFrom (S index) ds hs). exact IH.
Qed.

Lemma collectorSetup_spec (network : string) (ds : list Interface) (hs : list Handle) :
  forall index,
    (index + List.length ds <= List.length hs)%nat ->
    snd (collectorSetup SetBPFFilter network index ds hs) = true /\
    startedCaptures (fst (collectorSetup SetBPFFilter network index ds hs)) =
      combine ds (skipn index hs) /\
    closedHandles (fst (collectorSetup SetBPFFilter network index ds hs)) =
      List.filter (fun h => match SetBPFFilter h network with
                            | Some _ => true
                            | None => false
                            end)
        (firstn (List.length ds) (skipn index hs)).
Proof.
  induction ds as [| dev ds IH]; intros index Hlen.
  - cbn. repeat split.
  - cbn [List.length] in Hlen. cbn [collectorSetup List.length].
    destruct (nth_error hs index) as [h |] eqn:Hh;
      [| apply nth_error_None in Hh; lia].
    destruct (IH (S index)) as (H1 & H2 & H3); [lia |].
    destruct (collectorSetup SetBPFFilter network (S index) ds hs) as [effects ended].
    cbn [fst snd] in *. rewrite (skipn_cons_nth _ _ _ Hh).
    cbn [combine firstn List.filter startedCaptures closedHandles].
    rewrite startedCaptures_app, closedHandles_app.
    cbn [startedCaptures closedHandles]. rewrite H2, H3.
    split; [exact H1 |]. destruct (SetBPFFilter h network); split; reflexivity.
Qed.

(** In the first loop of [Collector] a handle whose filter fails is closed
    and, as the very next thing, handed to a capture goroutine. *)
Lemma collectorSetup_close_then_capture (network : string) (ds : list Interface)
  (hs : list Handle) :
  forall index i dev h err,
    nth_error ds i = Some dev ->
    nth_error hs (index + i) = Some h ->
    (index + List.length ds <= List.length hs)%nat ->
    SetBPFFilter h network = Some err ->
    exists before after,
      fst (collectorSetup SetBPFFilter network index ds hs) =
      before ++ CloseHandle h :: GoCapturePackets dev h :: after.
Proof.
  induction ds as [| d0 ds IH]; intros index i dev h err Hdev Hh Hlen Hfail.
  - destruct i; discriminate.
  - cbn [List.length] in Hlen. cbn [collectorSetup].
    destruct (nth_error hs index) as [h0 |] eqn:Hh0;
      [| apply nth_error_None in Hh0; lia].
    destruct i as [| i].
    + cbn in Hdev. injection Hdev as ->. rewrite Nat.add_0_r in Hh.
      assert (h0 = h) by congruence. subst h0. rewrite Hfail.
      destruct (collectorSetup SetBPFFilter network (S index) ds hs) as [effects ended].
      eexists [WgAdd 1; _], effects. reflexivity.
    + cbn in Hdev.
      destruct (IH (S index) i dev h err Hdev) as (before & after & Hrun);
        [replace (S index + i)%nat with (index + S i)%nat by lia; exact Hh | lia | exact Hfail |].
      destruct (collectorSetup SetBPFFilter network (S index) ds hs) as [effects ended].
      cbn [fst] in *. rewrite Hrun.
      exists (WgAdd 1 ::
              match SetBPFFilter h0 network with
              | Some err0 =>
                  [Logged (mkLogEntry ErrorLevel
                             [logField "interface" (Name d0); logField "error" err0]
                             [LogText "Could not set filter on device. Closing."]);
                   CloseHandle h0]
              | None => []
              end ++ GoCapturePackets d0 h0 :: before), after.
      cbn [app]. f_equal. rewrite <- app_assoc. reflexivity.
Qed.

(** X21: given as many handles as devices, [Collector] runs to its end
    and starts a capture goroutine for every device on its handle, whether
    or not the filter could be set; a handle whose filter failed is closed
    first and handed to its goroutine next, and is closed once more with
    all the others at shutdown. *)
Theorem Collector_captures_on_every_handle (filter : Filter) (devs : @Devices Handle) :
  List.length (devices devs) = List.length (handles devs) ->
  snd (Collector SetBPFFilter filter devs) = true /\
  startedCaptures (fst (Collector SetBPFFilter filter devs)) =
    combine (devices devs) (handles devs) /\
  closedHandles (fst (Collector SetBPFFilter filter devs)) =
    List.filter (fun h => match SetBPFFilter h (Network filter) with
                          | Some _ => true
                          | None => false
                          end) (handles devs) ++ handles devs /\
  (forall i dev h err,
      nth_error (devices devs) i = Some dev ->
      nth_error (handles devs) i = Some h ->
      SetBPFFilter h (Network filter) = Some err ->
      exists before after,
        fst (Collector SetBPFFilter filter devs) =
        before ++ CloseHandle h :: GoCapturePackets dev h :: after).
Proof.
  intros Hlen. unfold Collector, closeDevices.
  destruct (collectorSetup_spec (Network filter) (devices devs) (handles devs) 0)
    as (S1 & S2 & S3); [lia |].
  destruct (closeFrom_spec (devices devs) (handles devs) 0) as (C1 & C2); [lia |].
  assert (C3 := closeFrom_starts_nothing (devices devs) (handles devs) 0).
  assert (S4 := collectorSetup_close_then_capture (Network filter) (devices devs)
                  (handles devs) 0).
  destruct (collectorSetup SetBPFFilter (Network filter) 0 (devices devs) (handles devs))
    as [setup ended].
  destruct (closeFrom 0 (devices devs) (handles devs)) as [closing closed].
  cbn [fst snd skipn] in *. subst ended.
  assert (closed = true) by (apply C2; lia). subst closed. cbn [fst snd].
  rewrite !startedCaptures_app, !closedHandles_app, S2, S3, C1, C3, Hlen, firstn_all.
  cbn [startedCaptures closedHandles app]. rewrite !app_nil_r.
  split; [reflexivity | split; [reflexivity | split; [reflexivity |]]].
  intros i dev h err Hdev Hh Hfail.
  destruct (S4 i dev h err Hdev Hh) as (before & after & Hsetup); [lia | exact Hfail |].
  rewrite Hsetup. exists before.
  eexists. rewrite <- app_assoc. cbn [app]. reflexivity.
Qed.

(** X20: [InitialiseCapture] returns neither devices nor an error exactly
    when [findDevices] returns nil, with the same log; this is so whenever
    [net.Interfaces()] fails: the error it gave is logged and not
    returned.  [InitialiseCapture] panics exactly when [findDevices]
    does. *)
Theorem InitialiseCapture_fails_without_error
  (sys : list Interface + GoError) (interfaces : option (list string)) :
  (forall logs,
      InitialiseCapture OpenLive sys interfaces = Returns ((None, None), logs) <->
      findDevices sys interfaces = Returns (None, logs)) /\
  (InitialiseCapture OpenLive sys interfaces = Panics <->
   findDevices sys interfaces = Panics) /\
  (forall err, sys = inr err ->
      exists logs, InitialiseCapture OpenLive sys interfaces = Returns ((None, None), logs)).
Proof.
  unfold InitialiseCapture.
  destruct (findDevices sys interfaces) as [| [[found |] flogs]] eqn:Hfind.
  - split; [intros logs; split; discriminate | split; [split; reflexivity |]].
    intros err ->. discriminate.
  - destruct (openAll OpenLive found {| devices := []; handles := [] |} flogs) as [devs' logs'].
    destruct (List.length (devices devs') =? 0)%nat.
    + split; [intros logs; split; discriminate | split; [split; discriminate |]].
      intros err ->. discriminate.
    + split; [intros logs; split; discriminate | split; [split; discriminate |]].
      intros err ->. discriminate.
  - split; [| split; [split; discriminate |]].
    + intros logs. split; intros H; injection H as <-; reflexivity.
    + intros err _. exists flogs. reflexivity.
Qed.

End CaptureProperties.

(** * The further properties at concrete inputs *)

Lemma round_flag_follows_cache_witness :
  CachePush (12 * second) <> SyncChan /\
  (alert (stateOf (demoSelectCase (12 * second) (CachePush (12 * second)) quietTwoHitsDog)) = true <->
   list_ (cache (stateOf (demoSelectCase (12 * second) (CachePush (12 * second))
                            quietTwoHitsDog))) <> [] /\
   size (cache (stateOf (demoSelectCase (12 * second) (CachePush (12 * second))
                           quietTwoHitsDog))) >=
     threshold (stateOf (demoSelectCase (12 * second) (CachePush (12 * second))
                           quietTwoHitsDog))).
Proof.
  assert (Hev : CachePush (12 * second) <> SyncChan) by discriminate.
  split; [exact Hev |].
  exact (proj1 (round_flag_follows_cache
                  demoAlertFormat demoRecoveryFormat demoTimeLayout sprintfVerbs formatNanos
                  (12 * second) (CachePush (12 * second)) quietTwoHitsDog Hev)).
Defined.

Lemma evict_later_absorbs_earlier_witness :
  130 * second <= 135 * second /\
  stateOf (evict (135 * second) (stateOf (evict (130 * second) alertingFullDog))) =
  stateOf (evict (135 * second) alertingFullDog).
Proof.
  assert (Hle : 130 * second <= 135 * second) by (vm_compute; discriminate).
  split; [exact Hle |].
  exact (evict_later_absorbs_earlier (130 * second) (135 * second) alertingFullDog Hle).
Defined.

Lemma tick_leaves_only_hits_in_window_witness :
  Sorted Z.le (servedPushes (pushEvents demoHits)) /\
  Forall (fun e => snd e <> SyncChan) (pushEvents demoHits) /\
  Forall (fun e => Sub (131 * second) e <= AlertSpan demoParameters)
    (list_ (cache (stateOf (demoLoop (pushEvents demoHits ++
                                        [(131 * second, TickerC (131 * second))])
                              (newDog demoParameters))))).
Proof.
  assert (Hsorted : Sorted Z.le (servedPushes (pushEvents demoHits))).
  { repeat constructor; vm_compute; discriminate. }
  assert (Hall : Forall (fun e : Time * Event => snd e <> SyncChan) (pushEvents demoHits)).
  { repeat constructor; discriminate. }
  split; [exact Hsorted | split; [exact Hall |]].
  exact (tick_leaves_only_hits_in_window
           demoAlertFormat demoRecoveryFormat demoTimeLayout sprintfVerbs formatNanos
           demoParameters (pushEvents demoHits) (131 * second) (131 * second) Hsorted Hall).
Defined.

Lemma alerting_iff_window_count_witness :
  Sorted Z.le (map snd demoHits) /\
  Len (map snd demoHits) <= maxInt /\
  (alert (stateOf (demoSelectCase (131 * second) (TickerC (131 * second))
                     (stateOf (demoLoop (pushEvents demoHits) (newDog demoParameters))))) = true <->
   0 < countInWindow (131 * second) (AlertSpan demoParameters) (map snd demoHits) /\
   AlertThreshold demoParameters <=
     countInWindow (131 * second) (AlertSpan demoParameters) (map snd demoHits)).
Proof.
  assert (Hsorted : Sorted Z.le (map snd demoHits)).
  { repeat constructor; vm_compute; discriminate. }
  assert (Hfit : Len (map snd demoHits) <= maxInt) by (vm_compute; discriminate).
  split; [exact Hsorted | split; [exact Hfit |]].
  exact (alerting_iff_window_count_reaches_threshold
           demoAlertFormat demoRecoveryFormat demoTimeLayout sprintfVerbs formatNanos
           demoParameters demoHits (131 * second) (131 * second) Hsorted Hfit).
Defined.

Lemma findDevices_panic_cases_witness :
  (countDown [eth0; wlan0] <= 1)%nat /\
  findDevices (inl [eth0; wlan0]) None <> Panics /\
  isUp tun0 = false /\
  (1 <= countDown [wlan0; eth0])%nat /\
  findDevices (inl [wlan0; eth0; tun0]) None = Panics.
Proof.
  assert (Hone : (countDown [eth0; wlan0] <= 1)%nat) by (vm_compute; constructor).
  assert (Hdown : isUp tun0 = false) by reflexivity.
  assert (Hfront : (1 <= countDown [wlan0; eth0])%nat) by (vm_compute; constructor).
  split; [exact Hone | split; [| split; [exact Hdown | split; [exact Hfront |]]]].
  - exact (proj1 (findDevices_panic_cases [eth0; wlan0] None) Hone).
  - exact (proj2 (findDevices_panic_cases [wlan0; eth0; tun0] None)
             [wlan0; eth0] tun0 eq_refl Hdown Hfront).
Defined.

Lemma findDevices_without_request_witness :
  [eth0; loopback] <> [] /\
  Forall (fun d => isUp d = true) [eth0; loopback] /\
  findDevices (inl [eth0; loopback]) None = Returns (Some [eth0; loopback], []).
Proof.
  assert (Hne : [eth0; loopback] <> []) by discriminate.
  assert (Hup : Forall (fun d => isUp d = true) [eth0; loopback])
    by (repeat constructor).
  split; [exact Hne | split; [exact Hup |]].
  exact (proj2 (findDevices_without_request [eth0; loopback]) Hne Hup).
Defined.

Lemma findDevices_with_request_witness :
  exists logs,
    findDevices (inl [eth0; wlan0; loopback; eth1]) (Some ["eth1"; "wlan0"; "eth0"]%string) =
      Returns (Some [eth1; eth0], logs) /\
    subsequence (map Name [eth1; eth0]) ["eth1"; "wlan0"; "eth0"]%string.
Proof.
  eexists. split; [reflexivity |].
  exact (proj2 (proj2 (findDevices_with_request
                         [eth0; wlan0; loopback; eth1] ["eth1"; "wlan0"; "eth0"]%string
                         [eth1; eth0] _ eq_refl))).
Defined.

Lemma getRemoteIP_other_endpoint_witness :
  networkEndpoints httpPacket = Some ("10.0.0.7", "192.168.1.5")%string /\
  getRemoteIP httpPacket "192.168.1.5" = Returns "10.0.0.7"%string.
Proof.
  assert (Hflow : networkEndpoints httpPacket = Some ("10.0.0.7", "192.168.1.5")%string)
    by reflexivity.
  split; [exact Hflow |].
  exact (proj1 (getRemoteIP_other_endpoint httpPacket "192.168.1.5" "10.0.0.7" "192.168.1.5"
                  Hflow)).
Defined.

Lemma getDeviceIP_cases_witness :
  lacksByte "/" "192.168.1.5" = true /\
  getDeviceIP demoAddrs = Returns ("192.168.1.5"%string, None) /\
  getDeviceIP (inl ["192.168.1.5"%string]) = Panics.
Proof.
  assert (Hlacks : lacksByte "/" "192.168.1.5" = true) by reflexivity.
  split; [exact Hlacks | split].
  - exact (proj2 (proj2 (proj2 getDeviceIP_cases))
             "192.168.1.5"%string "24"%string ["fe80::1/64"%string] Hlacks).
  - exact (proj1 (proj2 (proj2 getDeviceIP_cases)) "192.168.1.5"%string [] Hlacks).
Defined.

Lemma capturePackets_forwards_matches_witness :
  snd (capturePackets eth0 demoFilter
         [(httpPacket, demoAddrs); (dnsPacket, demoAddrs); (httpPacket, demoAddrs)]) = true /\
  map rawPacket
    (sentPackets (fst (capturePackets eth0 demoFilter
                         [(httpPacket, demoAddrs); (dnsPacket, demoAddrs);
                          (httpPacket, demoAddrs)]))) =
    [httpPacket; httpPacket].
Proof.
  assert (Hend : snd (capturePackets eth0 demoFilter
                        [(httpPacket, demoAddrs); (dnsPacket, demoAddrs);
                         (httpPacket, demoAddrs)]) = true) by reflexivity.
  split; [exact Hend |].
  exact (proj1 (capturePackets_forwards_matches eth0 demoFilter
                  [(httpPacket, demoAddrs); (dnsPacket, demoAddrs); (httpPacket, demoAddrs)]
                  Hend)).
Defined.

Lemma InitialiseCapture_devices_and_handles_witness :
  exists logs,
    InitialiseCapture demoOpenLive (inl [eth0; loopback; eth1]) None =
      Returns ((Some demoDevices, None), logs) /\
    snd (closeDevices demoDevices) = true /\
    closedHandles (fst (closeDevices demoDevices)) = handles demoDevices.
Proof.
  eexists. split; [reflexivity |].
  exact (proj2 (proj2 (proj2 (proj2
           (InitialiseCapture_devices_and_handles demoOpenLive
              (inl [eth0; loopback; eth1]) None demoDevices None _ eq_refl))))).
Defined.

Lemma InitialiseCapture_fails_without_error_witness :
  exists logs,
    InitialiseCapture demoOpenLive (inr "route ip+net: no such network interface"%string) None =
      Returns ((None, None), logs).
Proof.
  exact (proj2 (proj2 (InitialiseCapture_fails_without_error demoOpenLive
                         (inr "route ip+net: no such network interface"%string) None))
           "route ip+net: no such network interface"%string eq_refl).
Defined.

Lemma Collector_captures_on_every_handle_witness :
  List.length (devices demoDevices) = List.length (handles demoDevices) /\
  snd (Collector demoSetBPFFilter demoFilter demoDevices) = true /\
  startedCaptures (fst (Collector demoSetBPFFilter demoFilter demoDevices)) =
    [(eth0, "pcap:eth0"%string); (eth1, "pcap:eth1"%string)] /\
  closedHandles (fst (Collector demoSetBPFFilter demoFilter demoDevices)) =
    ["pcap:eth1"; "pcap:eth0"; "pcap:eth1"]%string.
Proof.
  assert (Hlen : List.length (devices demoDevices) = List.length (handles demoDevices))
    by reflexivity.
  pose proof (Collector_captures_on_every_handle demoSetBPFFilter demoFilter demoDevices Hlen)
    as (Hend & Hstart & Hclose & _).
  split; [exact Hlen | split; [exact Hend | split; [exact Hstart | exact Hclose]]].
Defined.
